(** * SMAnalyzer: metrics-to-anomaly pipeline

    A shallow embedding of the Go packages [timeseries], [ml] and [anomaly]
    of SMAnalyzer, and the properties of the time-series store, the feature
    extractor, the K-means engine and the hybrid detector.

    Conventions of the embedding:
    - [float64] is Rocq's primitive binary64 float, so every arithmetic
      operation, comparison and [math.Sqrt] rounds as the Go code does;
    - a Go run-time panic (index or slice bound out of range, [make] with a
      negative length) is the result [None] of an [option];
    - a slice is a [list]; the nil slice and the empty slice are both [[]]
      (the code only ever ranges over them and takes their [len]);
    - [time.Time] is an instant on one time line, a [Z];
    - [time.Now()] is an explicit argument of the function that reads it;
    - [fmt.Sprintf] is kept symbolic (format string and arguments);
    - Go maps are [gmap]s; the mutable receivers ([*Storage], [*Detector])
      are passed and returned explicitly. *)

From Stdlib Require Import ZArith Floats Lia.
From stdpp Require Import gmap strings list fin_maps sorting.

#[local] Set Warnings "-clear-no-such-hyp".
#[local] Set Warnings "-inexact-float".

Local Open Scope Z_scope.

(** ** Go primitives *)

Module go.

(** [int] is 64 bits wide, two's complement. *)
Definition wrap64 (z : Z) : Z := (z + 2 ^ 63) `mod` 2 ^ 64 - 2 ^ 63.

(** [float64(n)] for a length [n]. *)
Definition float64_of_len (n : nat) : float :=
  PrimFloat.of_uint63 (Uint63.of_Z (Z.of_nat n)).

(** [s[i]]: panics out of range. *)
Definition index {A} (s : list A) (i : Z) : option A :=
  if decide (0 ≤ i) then s !! Z.to_nat i else None.

(** [s[lo:hi]] with [hi ≤ len(s)]: panics unless [0 ≤ lo ≤ hi ≤ len(s)]. *)
Definition slice {A} (s : list A) (lo hi : Z) : option (list A) :=
  if decide (0 ≤ lo ∧ lo ≤ hi ∧ hi ≤ Z.of_nat (length s))
  then Some (take (Z.to_nat hi - Z.to_nat lo) (drop (Z.to_nat lo) s))
  else None.

(** [error]: [nil] or a message. *)
Definition error := option string.

(** An unevaluated [fmt.Sprintf(format, args...)]. *)
Record formatted := Sprintf { format : string; args : list float }.

(** A left-to-right loop whose body may panic. *)
Fixpoint foldM {A B} (body : B → A → option B) (acc : B) (l : list A) : option B :=
  match l with
  | [] => Some acc
  | x :: l' => acc' ← body acc x; foldM body acc' l'
  end.

End go.

(** ** Package timeseries (storage.go) *)

Module timeseries.

Record DataPoint := {
  Timestamp : Z;
  Value : float;
  Labels : gmap string string
}.

Record TimeSeries := {
  ServiceName : string;
  Metric : string;
  Points : list DataPoint
}.

Record Storage := { series : gmap string TimeSeries }.

Definition NewStorage : Storage := {| series := ∅ |}.

Definition key (serviceName metric : string) : string :=
  serviceName +:+ ":" +:+ metric.

(** [now] is the value [time.Now()] returns inside the call. *)
Definition Store (s : Storage) (now : Z) (serviceName metric : string)
    (value : float) (labels : gmap string string) : Storage :=
  let key := key serviceName metric in
  let series1 :=
    match series s !! key with
    | None => <[key := {| ServiceName := serviceName; Metric := metric; Points := [] |}]> (series s)
    | Some _ => series s
    end in
  let point := {| Timestamp := now; Value := value; Labels := labels |} in
  {| series := alter (λ ts, {| ServiceName := ServiceName ts; Metric := Metric ts;
                               Points := Points ts ++ [point] |}) key series1 |}.

Definition GetSeries (s : Storage) (serviceName metric : string) : option TimeSeries :=
  series s !! key serviceName metric.

(** [t.After(u)] and [t.Before(u)]. *)
Definition After (t u : Z) : bool := u <? t.
Definition Before (t u : Z) : bool := t <? u.

Definition GetTimeRange (s : Storage) (serviceName metric : string) (start end_ : Z)
    : list DataPoint :=
  match GetSeries s serviceName metric with
  | None => []
  | Some series =>
      fold_left (λ result point,
                   if After (Timestamp point) start && Before (Timestamp point) end_
                   then result ++ [point] else result)
                (Points series) []
  end.

(** In [points[len(points)-n:]] the subtraction cannot wrap for [n ≥ 0];
    for [n < 0] the bound is above [len(points)], or negative once
    wrapped: the slice expression panics either way. *)
Definition GetLatestN (s : Storage) (serviceName metric : string) (n : Z)
    : option (list DataPoint) :=
  match GetSeries s serviceName metric with
  | None => Some []
  | Some series =>
      let points := Points series in
      if Z.of_nat (length points) <=? n then Some points
      else go.slice points (Z.of_nat (length points) - n) (Z.of_nat (length points))
  end.

(** One call of [Store], with the clock reading it made. *)
Record StoreCall := {
  call_now : Z;
  call_serviceName : string;
  call_metric : string;
  call_value : float;
  call_labels : gmap string string
}.

Definition StoreAll (s : Storage) (calls : list StoreCall) : Storage :=
  fold_left (λ s c, Store s (call_now c) (call_serviceName c) (call_metric c)
                          (call_value c) (call_labels c)) calls s.

End timeseries.

(** ** Package ml (clustering.go) *)

Module ml.

Import timeseries.

Record ClusterPoint := {
  Features : list float;
  Label : string;
  Original : option DataPoint   (* [*timeseries.DataPoint], nil or the point *)
}.

Record Cluster := {
  Centroid : list float;
  Points : list ClusterPoint
}.

(** The field [Features []string] of the source is [FeatureNames] here
    ([Features] is the field of [ClusterPoint]). *)
Record KMeansConfig := {
  K : Z;
  MaxIter : Z;
  Tolerance : float;
  FeatureNames : list string
}.

Record ClusteringEngine := { config : KMeansConfig }.

Definition NewClusteringEngine (config : KMeansConfig) : ClusteringEngine :=
  {| config := config |}.

Definition calculateMean (points : list DataPoint) : float :=
  if decide (length points = 0%nat) then 0%float
  else
    let sum := fold_left (λ sum p, (sum + Value p)%float) points 0%float in
    (sum / go.float64_of_len (length points))%float.

Definition calculateStdDev (points : list DataPoint) : float :=
  if decide (length points ≤ 1)%nat then 0%float
  else
    let mean := calculateMean points in
    let sumSquaredDiff :=
      fold_left (λ sumSquaredDiff p,
                   let diff := (Value p - mean)%float in
                   (sumSquaredDiff + diff * diff)%float) points 0%float in
    PrimFloat.sqrt (sumSquaredDiff / go.float64_of_len (length points - 1))%float.

Definition calculateTrend (points : list DataPoint) : float :=
  match points with
  | [] | [_] => 0%float
  | p0 :: _ =>
      let first := Value p0 in
      let last := Value (List.last points p0) in
      ((last - first) / first)%float
  end.

(** [changes] is allocated zeroed; entry [i-1] is written only when the
    previous value is not 0. *)
Definition calculateVolatility (points : list DataPoint) : float :=
  if decide (length points < 2)%nat then 0%float
  else
    let changes :=
      fold_left (λ changes i,
                   match points !! (i - 1)%nat, points !! i with
                   | Some prev, Some cur =>
                       if negb (Value prev =? 0)%float
                       then <[(i - 1)%nat := ((Value cur - Value prev) / Value prev)%float]> changes
                       else changes
                   | _, _ => changes   (* not reached: 1 ≤ i < len(points) *)
                   end)
                (seq 1 (length points - 1))
                (replicate (length points - 1) 0%float) in
    let mean := fold_left (λ mean change, (mean + change)%float) changes 0%float in
    let mean := (mean / go.float64_of_len (length changes))%float in
    let variance :=
      fold_left (λ variance change,
                   let diff := (change - mean)%float in
                   (variance + diff * diff)%float) changes 0%float in
    let variance := (variance / go.float64_of_len (length changes))%float in
    PrimFloat.sqrt variance.

Definition ExtractFeatures (points : list DataPoint) (windowSize : Z)
    : option (list ClusterPoint) :=
  mapM (λ i,
          window ← go.slice points (i - windowSize) i;
          original ← go.index points i;
          Some {| Features := [calculateMean window; calculateStdDev window;
                               calculateTrend window; calculateVolatility window];
                  Label := "";
                  Original := Some original |})
       (seqZ windowSize (Z.of_nat (length points) - windowSize)).

(** [for i := range a { diff := a[i] - b[i]; sum += diff * diff }]:
    [b[i]] panics when [b] is shorter than [a]. *)
Fixpoint sumSquaredDiffs (a b : list float) (sum : float) : option float :=
  match a with
  | [] => Some sum
  | ai :: a' =>
      match b with
      | [] => None
      | bi :: b' =>
          let diff := (ai - bi)%float in
          sumSquaredDiffs a' b' (sum + diff * diff)%float
      end
  end.

Definition euclideanDistance (a b : list float) : option float :=
  sum ← sumSquaredDiffs a b 0%float;
  Some (PrimFloat.sqrt sum).

Definition initializeClusters (ce : ClusteringEngine) (points : list ClusterPoint)
    : option (list Cluster) :=
  if decide (K (config ce) < 0) then None   (* make([]Cluster, K) *)
  else
    mapM (λ i,
            let pointIdx := go.wrap64 (i * Z.of_nat (length points)) `quot` K (config ce) in
            point ← go.index points pointIdx;
            Some {| Centroid := Features point; Points := [] |})
         (seqZ 0 (K (config ce))).

(** The inner loop of [assignPointsToClusters]: the index of the first
    centroid at minimum distance; [i] is the loop index. *)
Fixpoint nearestCluster (features : list float) (clusters : list Cluster)
    (i : nat) (minDist : float) (clusterIdx : nat) : option nat :=
  match clusters with
  | [] => Some clusterIdx
  | cluster :: rest =>
      dist ← euclideanDistance features (Centroid cluster);
      if (dist <? minDist)%float
      then nearestCluster features rest (S i) dist i
      else nearestCluster features rest (S i) minDist clusterIdx
  end.

Definition assignPoint (clusters : list Cluster) (point : ClusterPoint)
    : option (list Cluster) :=
  clusterIdx ← nearestCluster (Features point) clusters 0 infinity 0;
  cluster ← clusters !! clusterIdx;
  Some (<[clusterIdx := {| Centroid := Centroid cluster;
                           Points := Points cluster ++ [point] |}]> clusters).

Definition assignPointsToClusters (points : list ClusterPoint) (clusters : list Cluster)
    : option (list Cluster) :=
  let clusters := (λ c, {| Centroid := Centroid c; Points := [] |}) <$> clusters in
  go.foldM assignPoint clusters points.

Definition updateCentroid (cluster : Cluster) : option Cluster :=
  if decide (length (Points cluster) = 0%nat) then Some cluster
  else
    centroid ← mapM (λ j,
                       sum ← go.foldM (λ sum point,
                                         x ← Features point !! j;
                                         Some (sum + x)%float)
                                      0%float (Points cluster);
                       Some (sum / go.float64_of_len (length (Points cluster)))%float)
                    (seq 0 (length (Centroid cluster)));
    Some {| Centroid := centroid; Points := Points cluster |}.

Definition updateCentroids (clusters : list Cluster) : option (list Cluster) :=
  mapM updateCentroid clusters.

Definition copyCentroids (clusters : list Cluster) : list (list float) :=
  Centroid <$> clusters.

(** [hasConverged], from loop index [i] on. *)
Fixpoint hasConvergedFrom (ce : ClusteringEngine) (oldCentroids : list (list float))
    (i : nat) (clusters : list Cluster) : option bool :=
  match clusters with
  | [] => Some true
  | cluster :: rest =>
      old ← oldCentroids !! i;
      dist ← euclideanDistance old (Centroid cluster);
      if (Tolerance (config ce) <? dist)%float then Some false
      else hasConvergedFrom ce oldCentroids (S i) rest
  end.

Definition hasConverged (ce : ClusteringEngine) (oldCentroids : list (list float))
    (clusters : list Cluster) : option bool :=
  hasConvergedFrom ce oldCentroids 0 clusters.

(** The loop of [KMeans] with [iters] iterations left. *)
Fixpoint iterate (ce : ClusteringEngine) (points : list ClusterPoint)
    (iters : nat) (clusters : list Cluster) : option (list Cluster) :=
  match iters with
  | O => Some clusters
  | S iters' =>
      let oldCentroids := copyCentroids clusters in
      clusters ← assignPointsToClusters points clusters;
      clusters ← updateCentroids clusters;
      converged ← hasConverged ce oldCentroids clusters;
      if converged : bool then Some clusters
      else iterate ce points iters' clusters
  end.

Definition KMeans (ce : ClusteringEngine) (points : list ClusterPoint)
    : option (list Cluster) :=
  if decide (Z.of_nat (length points) < K (config ce)) then Some []
  else
    clusters ← initializeClusters ce points;
    iterate ce points (Z.to_nat (MaxIter (config ce))) clusters.

End ml.

(** ** Package anomaly (detector.go) *)

Module anomaly.

Import timeseries.

Definition AnomalyType := string.

Definition TrafficSpike : AnomalyType := "traffic_spike".
Definition ErrorRateHigh : AnomalyType := "error_rate_high".
Definition LatencyAnomaly : AnomalyType := "latency_anomaly".
Definition CircuitBreaker : AnomalyType := "circuit_breaker".
Definition RetryStorm : AnomalyType := "retry_storm".
Definition TimeoutAnomaly : AnomalyType := "timeout_anomaly".

Record Anomaly := {
  Type_ : AnomalyType;           (* field [Type] *)
  ServiceName : string;
  Namespace : string;
  Severity : float;
  Description : go.formatted;
  Timestamp : Z;
  Metrics : gmap string float;
  Labels : gmap string string
}.

Record DetectionConfig := {
  TrafficSpikeThreshold : float;
  ErrorRateThreshold : float;
  LatencyThreshold : Z;
  RetryThreshold : Z;
  TimeoutThreshold : Z;
  WindowSize : Z;
  SensitivityLevel : float
}.

Record Detector := {
  config : DetectionConfig;
  clusteringEngine : ml.ClusteringEngine;
  baselines : gmap string (list ml.Cluster)
}.

Definition NewDetector (config : DetectionConfig) (clusteringEngine : ml.ClusteringEngine)
    : Detector :=
  {| config := config; clusteringEngine := clusteringEngine; baselines := ∅ |}.

(** The receiver after the call, and the returned error. *)
Definition LearnBaseline (d : Detector) (serviceName : string) (points : list DataPoint)
    : option (Detector * go.error) :=
  if decide (Z.of_nat (length points) < WindowSize (config d))
  then Some (d, Some "insufficient data points for baseline learning")
  else
    features ← ml.ExtractFeatures points (WindowSize (config d));
    clusters ← ml.KMeans (clusteringEngine d) features;
    Some ({| config := config d; clusteringEngine := clusteringEngine d;
             baselines := <[serviceName := clusters]> (baselines d) |}, None).

Definition calculateMean (points : list DataPoint) : float :=
  if decide (length points = 0%nat) then 0%float
  else
    let sum := fold_left (λ sum p, (sum + Value p)%float) points 0%float in
    (sum / go.float64_of_len (length points))%float.

Definition euclideanDistance (a b : list float) : option float :=
  sum ← ml.sumSquaredDiffs a b 0%float;
  Some (PrimFloat.sqrt sum).

Definition isTrafficSpike (d : Detector) (points : list DataPoint) : bool :=
  if decide (length points < 3)%nat then false
  else
    let recent := drop (length points - 3) points in
    let baseline := calculateMean (take (length points - 3) points) in
    let currentRate := calculateMean recent in
    (baseline * TrafficSpikeThreshold (config d) <? currentRate)%float.

Definition isHighErrorRate (d : Detector) (points : list DataPoint) : bool :=
  match last points with
  | None => false
  | Some latest => (ErrorRateThreshold (config d) <? Value latest)%float
  end.

Definition calculateTrafficSpikeSeverity (d : Detector) (points : list DataPoint) : float :=
  if decide (length points < 3)%nat then 1%float
  else
    let recent := drop (length points - 3) points in
    let baseline := calculateMean (take (length points - 3) points) in
    let currentRate := calculateMean recent in
    if (baseline =? 0)%float then 1%float
    else (currentRate / baseline)%float.

Definition detectStaticAnomalies (d : Detector) (serviceName : string)
    (points : list DataPoint) : list Anomaly :=
  if decide (length points < 2)%nat then []
  else
    match last points with
    | None => []   (* not reached: len(points) ≥ 2 *)
    | Some latest =>
        let anomalies := [] in
        let anomalies :=
          if isTrafficSpike d points
          then anomalies ++ [{|
                 Type_ := TrafficSpike;
                 ServiceName := serviceName;
                 Namespace := "";
                 Severity := calculateTrafficSpikeSeverity d points;
                 Description := go.Sprintf "Traffic spike detected: %.2f requests" [Value latest];
                 Timestamp := timeseries.Timestamp latest;
                 Metrics := {[ "current_traffic" := Value latest ]};
                 Labels := ∅ |}]
          else anomalies in
        let anomalies :=
          if isHighErrorRate d points
          then anomalies ++ [{|
                 Type_ := ErrorRateHigh;
                 ServiceName := serviceName;
                 Namespace := "";
                 Severity := (Value latest / ErrorRateThreshold (config d))%float;
                 Description := go.Sprintf "High error rate: %.2f%%" [(Value latest * 100)%float];
                 Timestamp := timeseries.Timestamp latest;
                 Metrics := {[ "error_rate" := Value latest ]};
                 Labels := ∅ |}]
          else anomalies in
        anomalies
    end.

(** One cluster's contribution in [calculateDynamicThreshold]: the
    updated [totalVariance] and [totalPoints]. *)
Definition accumulateVariance (acc : float * nat) (cluster : ml.Cluster)
    : option (float * nat) :=
  let '(totalVariance, totalPoints) := acc in
  if decide (length (ml.Points cluster) = 0%nat) then Some acc
  else
    variance ← go.foldM (λ variance point,
                           distance ← euclideanDistance (ml.Features point) (ml.Centroid cluster);
                           Some (variance + distance * distance)%float)
                        0%float (ml.Points cluster);
    let variance := (variance / go.float64_of_len (length (ml.Points cluster)))%float in
    Some ((totalVariance + variance * go.float64_of_len (length (ml.Points cluster)))%float,
          (totalPoints + length (ml.Points cluster))%nat).

Definition calculateDynamicThreshold (d : Detector) (clusters : list ml.Cluster)
    : option float :=
  if decide (length clusters = 0%nat) then Some 1%float
  else
    '(totalVariance, totalPoints) ← go.foldM accumulateVariance (0%float, 0%nat) clusters;
    if decide (totalPoints = 0%nat) then Some 1%float
    else
      let avgVariance := (totalVariance / go.float64_of_len totalPoints)%float in
      Some (PrimFloat.sqrt avgVariance * SensitivityLevel (config d))%float.

(** [now] is the value [time.Now()] returns when an anomaly is built. *)
Definition detectMLAnomalies (d : Detector) (now : Z) (serviceName : string)
    (points : list DataPoint) (baselines : list ml.Cluster) : option (list Anomaly) :=
  if decide (Z.of_nat (length points) < WindowSize (config d)) then Some []
  else
    features ← ml.ExtractFeatures points (WindowSize (config d));
    match last features with
    | None => Some []
    | Some latest =>
        minDistance ← go.foldM (λ minDistance cluster,
                                  distance ← euclideanDistance (ml.Features latest) (ml.Centroid cluster);
                                  Some (if (distance <? minDistance)%float then distance else minDistance))
                               infinity baselines;
        threshold ← calculateDynamicThreshold d baselines;
        if (threshold <? minDistance)%float
        then
          let severity := (minDistance / threshold)%float in
          Some [{| Type_ := "behavioral_anomaly";
                   ServiceName := serviceName;
                   Namespace := "";
                   Severity := severity;
                   Description := go.Sprintf "Behavioral anomaly detected (distance: %.2f)" [minDistance];
                   Timestamp := now;
                   Metrics := {[ "anomaly_distance" := minDistance ]};
                   Labels := ∅ |}]
        else Some []
    end.

Definition DetectAnomalies (d : Detector) (now : Z) (serviceName : string)
    (recentPoints : list DataPoint) : option (list Anomaly * go.error) :=
  let anomalies := [] in
  let staticAnomalies := detectStaticAnomalies d serviceName recentPoints in
  let anomalies := anomalies ++ staticAnomalies in
  match baselines d !! serviceName with
  | Some clusters =>
      mlAnomalies ← detectMLAnomalies d now serviceName recentPoints clusters;
      Some (anomalies ++ mlAnomalies, None)
  | None => Some (anomalies, None)
  end.

End anomaly.

(** ** Package config: the default configuration *)

Module config.

Record DetectionConfig := {
  TrafficSpikeThreshold : float;
  ErrorRateThreshold : float;
  LatencyThreshold : Z;          (* [time.Duration], nanoseconds *)
  RetryThreshold : Z;
  TimeoutThreshold : Z;
  WindowSize : Z;
  SensitivityLevel : float
}.

Record ClusteringConfig := {
  K : Z;
  MaxIter : Z;
  Tolerance : float;
  ClusteringWindowSize : Z       (* field [WindowSize] of [ClusteringConfig] *)
}.

(** The [Kubernetes] and [Output] parts configure collaborators outside
    this development. *)
Record Config := {
  Detection : DetectionConfig;
  Clustering : ClusteringConfig
}.

Definition DefaultConfig : Config :=
  {| Detection := {| TrafficSpikeThreshold := 2.0;
                     ErrorRateThreshold := 0.05;
                     LatencyThreshold := 1 * 1000000000;
                     RetryThreshold := 100;
                     TimeoutThreshold := 10;
                     WindowSize := 10;
                     SensitivityLevel := 2.0 |};
     Clustering := {| K := 3;
                      MaxIter := 100;
                      Tolerance := 0.01;
                      ClusteringWindowSize := 10 |} |}.

Definition ToAnomalyDetectionConfig (c : Config) : anomaly.DetectionConfig :=
  {| anomaly.TrafficSpikeThreshold := TrafficSpikeThreshold (Detection c);
     anomaly.ErrorRateThreshold := ErrorRateThreshold (Detection c);
     anomaly.LatencyThreshold := LatencyThreshold (Detection c);
     anomaly.RetryThreshold := RetryThreshold (Detection c);
     anomaly.TimeoutThreshold := TimeoutThreshold (Detection c);
     anomaly.WindowSize := WindowSize (Detection c);
     anomaly.SensitivityLevel := SensitivityLevel (Detection c) |}.

(** [Features] is left at its zero value, the nil slice. *)
Definition ToMLConfig (c : Config) : ml.KMeansConfig :=
  {| ml.K := K (Clustering c);
     ml.MaxIter := MaxIter (Clustering c);
     ml.Tolerance := Tolerance (Clustering c);
     ml.FeatureNames := [] |}.

End config.

(** ** Package output (formatter.go): the pure helpers of the formatter *)

Module output.

(** [getSeverityText]; the receiver is not read. *)
Definition getSeverityText (severity : float) : string :=
  if (3.0 <=? severity)%float then "CRITICAL"
  else if (2.0 <=? severity)%float then "HIGH"
  else if (1.5 <=? severity)%float then "MEDIUM"
  else "LOW".

(** [truncate]: [len(s)] counts bytes and [s[:maxLen-3]] slices bytes; the
    slice expression panics unless [0 ≤ maxLen-3 ≤ len(s)]. *)
Definition truncate (s : string) (maxLen : Z) : option string :=
  if Z.of_nat (String.length s) <=? maxLen then Some s
  else
    let hi := go.wrap64 (maxLen - 3) in
    if decide (0 ≤ hi ∧ hi ≤ Z.of_nat (String.length s))
    then Some (String.substring 0 (Z.to_nat hi) s +:+ "...")
    else None.

End output.

(** ** Vocabulary of the specification

    The notions the specification states its properties with, written from
    its words, to be compared with what the code above computes. *)

(** The last [k] elements of a sequence, in their order. *)
Definition lastN {A} (k : nat) (l : list A) : list A := drop (length l - k) l.

(** The points of the series stored under a key; none when it is absent. *)
Definition pointsAt (s : timeseries.Storage) (k : string) : list timeseries.DataPoint :=
  match timeseries.series s !! k with
  | Some ts => timeseries.Points ts
  | None => []
  end.

(** The sample a [Store] call appends. *)
Definition sampleOf (c : timeseries.StoreCall) : timeseries.DataPoint :=
  {| timeseries.Timestamp := timeseries.call_now c;
     timeseries.Value := timeseries.call_value c;
     timeseries.Labels := timeseries.call_labels c |}.

(** The samples appended under a key by a sequence of calls, in call order. *)
Definition samplesOf (k : string) (calls : list timeseries.StoreCall)
    : list timeseries.DataPoint :=
  sampleOf <$>
    filter (λ c, timeseries.key (timeseries.call_serviceName c) (timeseries.call_metric c) = k)
           calls.

(** Relative deltas [(v[i]-v[i-1])/v[i-1]] of consecutive values; a delta
    whose denominator [v[i-1]] is 0 counts as 0. *)
Definition relativeDeltas (v : list float) : list float :=
  zip_with (λ prev cur, if (prev =? 0)%float then 0%float else ((cur - prev) / prev)%float)
           v (tail v).

(** Sums run left to right from 0, as every loop of the source does. *)
Definition sumOf (xs : list float) : float :=
  fold_left (λ s x, (s + x)%float) xs 0%float.

Definition meanOf (xs : list float) : float :=
  (sumOf xs / go.float64_of_len (length xs))%float.

Definition sumSquaredDeviations (xs : list float) : float :=
  let m := meanOf xs in
  fold_left (λ s x, (s + (x - m) * (x - m))%float) xs 0%float.

(** Sample standard deviation: denominator [n - 1], and 0 for fewer than
    two values. *)
Definition sampleStdDev (xs : list float) : float :=
  if decide (length xs < 2)%nat then 0%float
  else PrimFloat.sqrt (sumSquaredDeviations xs / go.float64_of_len (length xs - 1))%float.

(** Population standard deviation: denominator [n]. *)
Definition populationStdDev (xs : list float) : float :=
  PrimFloat.sqrt (sumSquaredDeviations xs / go.float64_of_len (length xs))%float.

(** A window of samples with the given values. *)
Definition sample (v : float) : timeseries.DataPoint :=
  {| timeseries.Timestamp := 0; timeseries.Value := v; timeseries.Labels := ∅ |}.

(** A value that a Go [int] holds without wrapping. *)
Definition fits_int (z : Z) : Prop := - 2 ^ 63 ≤ z < 2 ^ 63.

(** All feature vectors of a sequence have dimension [d]. *)
Definition features_dim (d : nat) (points : list ml.ClusterPoint) : Prop :=
  Forall (λ p, length (ml.Features p) = d) points.

(** All centroids of a sequence of clusters have dimension [d]. *)
Definition centroids_dim (d : nat) (clusters : list ml.Cluster) : Prop :=
  Forall (λ c, length (ml.Centroid c) = d) clusters.

(** The points assigned to the clusters, cluster after cluster. *)
Definition assigned (clusters : list ml.Cluster) : list ml.ClusterPoint :=
  concat (ml.Points <$> clusters).

(** Euclidean distance over the common coordinates of two vectors. *)
Definition euclidean (a b : list float) : float :=
  PrimFloat.sqrt (fold_left (λ s xy, (s + (xy.1 - xy.2) * (xy.1 - xy.2))%float) (zip a b) 0%float).

(** Intra-cluster variance: the mean, over the assigned points, of the
    squared Euclidean distance to the centroid. *)
Definition intraClusterVariance (c : ml.Cluster) : float :=
  (sumOf ((λ p, let dist := euclidean (ml.Features p) (ml.Centroid c) in (dist * dist)%float)
            <$> ml.Points c)
   / go.float64_of_len (length (ml.Points c)))%float.

(** Pooled variance: the mean of the intra-cluster variances of the
    clusters that have a point, each weighted by its number of points. *)
Definition pooledVariance (clusters : list ml.Cluster) : float :=
  (sumOf ((λ c, (intraClusterVariance c * go.float64_of_len (length (ml.Points c)))%float)
            <$> filter (λ c, (0 < length (ml.Points c))%nat) clusters)
   / go.float64_of_len (length (assigned clusters)))%float.

Definition dynamicThreshold (sensitivityLevel : float) (clusters : list ml.Cluster) : float :=
  if decide (length (assigned clusters) = 0%nat) then 1%float
  else (PrimFloat.sqrt (pooledVariance clusters) * sensitivityLevel)%float.

(** No assigned point has more features than the centroid of its cluster
    (the distance loop indexes the centroid by the point's features). *)
Definition baseline_wf (clusters : list ml.Cluster) : Prop :=
  Forall (λ c, Forall (λ p, (length (ml.Features p) ≤ length (ml.Centroid c))%nat) (ml.Points c))
         clusters.

(** What holds of every baseline a detector stores: the window size is not
    negative and all centroids and assigned points have the 4 features of
    [ExtractFeatures]. *)
Definition baseline_ok (cfg : anomaly.DetectionConfig) (clusters : list ml.Cluster) : Prop :=
  0 ≤ anomaly.WindowSize cfg ∧ centroids_dim 4 clusters ∧ features_dim 4 (assigned clusters).

Definition detector_ok (d : anomaly.Detector) : Prop :=
  ∀ serviceName clusters,
    anomaly.baselines d !! serviceName = Some clusters →
    baseline_ok (anomaly.config d) clusters.

(** The detectors a program can hold: a new one, or one on which
    [LearnBaseline] returned. *)
Inductive reachable : anomaly.Detector → Prop :=
  | reachable_new cfg ce : reachable (anomaly.NewDetector cfg ce)
  | reachable_learn d serviceName points d' err :
      reachable d →
      anomaly.LearnBaseline d serviceName points = Some (d', err) →
      reachable d'.

(** The detector of [scan.go]: default configuration, no baseline. *)
Definition defaultDetector : anomaly.Detector :=
  anomaly.NewDetector (config.ToAnomalyDetectionConfig config.DefaultConfig)
                      (ml.NewClusteringEngine (config.ToMLConfig config.DefaultConfig)).

(** Twenty samples of one metric, and the eleven most recent of them. *)
Definition history : list timeseries.DataPoint :=
  sample <$> [0.020; 0.021; 0.019; 0.022; 0.023; 0.018; 0.020; 0.021; 0.022; 0.019;
              0.030; 0.012; 0.040; 0.010; 0.020; 0.020; 0.020; 0.021; 0.019; 0.020]%float.

Definition recent : list timeseries.DataPoint := drop 9 history.

(** The anomalies of the ML path in a detection result. *)
Definition behavioral (anomalies : list anomaly.Anomaly) : list anomaly.Anomaly :=
  filter (λ a, anomaly.Type_ a = "behavioral_anomaly") anomalies.

(** The separator of the composite key, as a byte. *)
Definition colon : Ascii.ascii := Ascii.ascii_of_nat 58.

(** A byte occurs in a string. *)
Fixpoint containsByte (c : Ascii.ascii) (s : string) : bool :=
  match s with
  | EmptyString => false
  | String a s' => if Ascii.eqb a c then true else containsByte c s'
  end.

(** The mean of coordinate [j] over the points of a cluster, summed left
    to right. *)
Definition columnMean (j : nat) (points : list ml.ClusterPoint) : float :=
  (sumOf ((λ p, default 0%float (ml.Features p !! j)) <$> points)
   / go.float64_of_len (length points))%float.

(** The per-dimension mean of the points of a cluster, in [d] dimensions. *)
Definition meanOfPoints (d : nat) (points : list ml.ClusterPoint) : list float :=
  (λ j, columnMean j points) <$> seq 0 d.

(** The least distance from a feature vector to the centroids of a
    baseline, scanning from [+Inf]. *)
Definition nearestDistance (features : list float) (clusters : list ml.Cluster) : float :=
  fold_left (λ m c, let dist := euclidean features (ml.Centroid c) in
                    if (dist <? m)%float then dist else m)
            clusters infinity.

(** The rank of a severity label, from LOW (0) to CRITICAL (3). *)
Definition severityRank (text : string) : nat :=
  if decide (text = "CRITICAL") then 3
  else if decide (text = "HIGH") then 2
  else if decide (text = "MEDIUM") then 1
  else 0.

(** ** The time-series store *)

Section store.
Import timeseries.

Lemma lastN_length {A} (k : nat) (l : list A) :
  length (lastN k l) = (k `min` length l)%nat.
Proof. unfold lastN. rewrite length_drop. lia. Qed.

Lemma lastN_suffix {A} (k : nat) (l : list A) : lastN k l `suffix_of` l.
Proof. apply suffix_drop. Qed.

Lemma lastN_all {A} (k : nat) (l : list A) : (length l ≤ k)%nat → lastN k l = l.
Proof. intros Hk. unfold lastN. by replace (length l - k)%nat with 0%nat by lia. Qed.

Lemma slice_to_end {A} (l : list A) (lo : Z) :
  0 ≤ lo ≤ Z.of_nat (length l) →
  go.slice l lo (Z.of_nat (length l)) = Some (drop (Z.to_nat lo) l).
Proof.
  intros Hlo. unfold go.slice. rewrite decide_True by lia.
  f_equal. apply take_ge. rewrite length_drop. lia.
Qed.

Lemma pointsAt_Store s now serviceName metric value labels k :
  pointsAt (Store s now serviceName metric value labels) k =
  pointsAt s k ++
    (if decide (key serviceName metric = k)
     then [{| Timestamp := now; Value := value; Labels := labels |}] else []).
Proof.
  unfold pointsAt, Store; simpl.
  destruct (decide (key serviceName metric = k)) as [<-|Hne].
  - rewrite lookup_alter_eq.
    destruct (series s !! key serviceName metric) as [ts|] eqn:Hs; simpl.
    + by rewrite Hs.
    + by rewrite lookup_insert_eq.
  - rewrite lookup_alter_ne by done.
    destruct (series s !! key serviceName metric); simpl.
    + by rewrite app_nil_r.
    + rewrite lookup_insert_ne by done. by rewrite app_nil_r.
Qed.

Lemma pointsAt_StoreAll calls : ∀ s k,
  pointsAt (StoreAll s calls) k = pointsAt s k ++ samplesOf k calls.
Proof.
  induction calls as [|c calls IH]; intros s k.
  - by rewrite app_nil_r.
  - unfold StoreAll in *; simpl. rewrite IH, pointsAt_Store.
    rewrite <- app_assoc. f_equal. unfold samplesOf.
    rewrite filter_cons. by case_decide.
Qed.

(** A series exists exactly when a sample was stored under its key. *)
Lemma series_present_Store s now serviceName metric value labels k :
  is_Some (series (Store s now serviceName metric value labels) !! k) ↔
  is_Some (series s !! k) ∨ key serviceName metric = k.
Proof.
  unfold Store; simpl.
  destruct (decide (key serviceName metric = k)) as [<-|Hne].
  - rewrite lookup_alter_eq.
    destruct (series s !! key serviceName metric) as [ts|] eqn:Hs; simpl.
    + rewrite Hs. naive_solver.
    + rewrite lookup_insert_eq. naive_solver.
  - rewrite lookup_alter_ne by done.
    destruct (series s !! key serviceName metric); simpl.
    + naive_solver.
    + rewrite lookup_insert_ne by done. naive_solver.
Qed.

Lemma series_absent_StoreAll calls : ∀ s k,
  series (StoreAll s calls) !! k = None ↔ series s !! k = None ∧ samplesOf k calls = [].
Proof.
  induction calls as [|c calls IH]; intros s k.
  - simpl. naive_solver.
  - unfold StoreAll in *; simpl. rewrite IH.
    rewrite !eq_None_not_Some, series_present_Store.
    unfold samplesOf. rewrite filter_cons. case_decide; simpl; naive_solver.
Qed.

(** [GetLatestN] on any state of the store. *)
Lemma GetLatestN_pointsAt s serviceName metric n :
  0 ≤ n →
  GetLatestN s serviceName metric n
    = Some (lastN (Z.to_nat n) (pointsAt s (key serviceName metric))).
Proof.
  intros Hn. unfold GetLatestN, GetSeries, pointsAt.
  destruct (series s !! key serviceName metric) as [ts|]; [|done].
  destruct (Z.leb_spec (Z.of_nat (length (Points ts))) n).
  - by rewrite lastN_all by lia.
  - rewrite slice_to_end by lia. unfold lastN. do 2 f_equal. lia.
Qed.

Lemma GetTimeRange_loop start end_ points : ∀ result,
  fold_left (λ result point,
               if After (Timestamp point) start && Before (Timestamp point) end_
               then result ++ [point] else result) points result
  = result ++ filter (λ p, start < Timestamp p ∧ Timestamp p < end_) points.
Proof.
  induction points as [|p points IH]; intros result; simpl.
  - by rewrite app_nil_r.
  - rewrite IH, filter_cons. unfold After, Before.
    destruct (Z.ltb_spec start (Timestamp p)), (Z.ltb_spec (Timestamp p) end_); simpl;
      case_decide; try lia; by rewrite <- ?app_assoc.
Qed.

(** C5. Whatever sequence of [Store] calls built the store, and for every
    requested count [n ≥ 0], [GetLatestN] returns the last
    [min(n, count)] samples appended under the key of (entity, metric), in
    the order they were appended; it returns the empty sequence when no
    series exists under that key. *)
Theorem GetLatestN_last_min (calls : list StoreCall) (serviceName metric : string) (n : Z) :
  0 ≤ n →
  let s := StoreAll NewStorage calls in
  let samples := samplesOf (key serviceName metric) calls in
  GetLatestN s serviceName metric n
    = Some (lastN (Z.to_nat (n `min` Z.of_nat (length samples))) samples)
  ∧ (GetSeries s serviceName metric = None → GetLatestN s serviceName metric n = Some []).
Proof.
  intros Hn s samples. split.
  - rewrite GetLatestN_pointsAt by done. subst s.
    rewrite pointsAt_StoreAll. change (pointsAt NewStorage _) with (@nil DataPoint).
    simpl. fold samples. unfold lastN. do 2 f_equal. lia.
  - intros Habs. unfold GetLatestN. by rewrite Habs.
Qed.

Lemma GetLatestN_last_min_witness :
  let calls := [ {| call_now := 1; call_serviceName := "a"; call_metric := "m";
                    call_value := 1%float; call_labels := ∅ |};
                 {| call_now := 2; call_serviceName := "b"; call_metric := "m";
                    call_value := 2%float; call_labels := ∅ |};
                 {| call_now := 3; call_serviceName := "a"; call_metric := "m";
                    call_value := 3%float; call_labels := ∅ |};
                 {| call_now := 4; call_serviceName := "a"; call_metric := "m";
                    call_value := 4%float; call_labels := ∅ |} ] in
  0 ≤ 2 ∧
  GetLatestN (StoreAll NewStorage calls) "a" "m" 2
    = Some [ {| Timestamp := 3; Value := 3%float; Labels := ∅ |};
             {| Timestamp := 4; Value := 4%float; Labels := ∅ |} ].
Proof.
  intros calls. split; [lia|].
  pose proof (GetLatestN_last_min calls "a" "m" 2 ltac:(lia)) as [H _].
  rewrite H. vm_compute. reflexivity.
Defined.

(** C6. For every stored series and every pair (start, end),
    [GetTimeRange] returns exactly the stored samples whose timestamp is
    strictly after [start] and strictly before [end], in stored order, and
    the empty sequence when the series is absent. *)
Theorem GetTimeRange_open_interval (s : Storage) (serviceName metric : string)
    (start end_ : Z) :
  GetTimeRange s serviceName metric start end_ =
  match GetSeries s serviceName metric with
  | Some ts => filter (λ p, start < Timestamp p ∧ Timestamp p < end_) (Points ts)
  | None => []
  end.
Proof.
  unfold GetTimeRange. destruct (GetSeries s serviceName metric); [|done].
  by rewrite GetTimeRange_loop.
Qed.

(** A negative count is outside the contract: on a series with a point the
    slice expression panics. *)
Example GetLatestN_negative_count :
  GetLatestN (Store NewStorage 1 "a" "m" 1%float ∅) "a" "m" (-1) = None.
Proof. by vm_compute. Qed.

(** The case of [TestStorage_GetTimeRange]: of four points one hour apart,
    the two strictly inside the range are returned. *)
Example GetTimeRange_test :
  let hour := 3600 in
  let s := {| series := {[ "test:metric" :=
                {| ServiceName := "test"; Metric := "metric";
                   Points := [ {| Timestamp := -2 * hour; Value := 1%float; Labels := ∅ |};
                               {| Timestamp := -1 * hour; Value := 2%float; Labels := ∅ |};
                               {| Timestamp := 0; Value := 3%float; Labels := ∅ |};
                               {| Timestamp := 1 * hour; Value := 4%float; Labels := ∅ |} ] |} ]} |} in
  Value <$> GetTimeRange s "test" "metric" (-5400) 1800 = [2; 3]%float.
Proof. by vm_compute. Qed.

(** A sample stamped exactly [start] or exactly [end] is left out. *)
Example GetTimeRange_boundaries :
  let s := StoreAll NewStorage
             ((λ t, {| call_now := t; call_serviceName := "a"; call_metric := "m";
                       call_value := 0%float; call_labels := ∅ |}) <$> [10; 20; 30]) in
  Timestamp <$> GetTimeRange s "a" "m" 10 30 = [20].
Proof. by vm_compute. Qed.

End store.

(** ** The feature extractor *)

Section features.
Import timeseries ml.

Lemma fold_left_fmap {A B C} (f : C → B → C) (g : A → B) (l : list A) : ∀ acc,
  fold_left f (g <$> l) acc = fold_left (λ acc x, f acc (g x)) l acc.
Proof. induction l as [|x l IH]; intros acc; simpl; [done|apply IH]. Qed.

(** [calculateStdDev] is the sample standard deviation of the values. *)
Lemma calculateStdDev_sample (points : list DataPoint) :
  calculateStdDev points = sampleStdDev (Value <$> points).
Proof.
  unfold calculateStdDev, sampleStdDev, sumSquaredDeviations, meanOf, sumOf, calculateMean.
  rewrite length_fmap, !fold_left_fmap.
  repeat case_decide; try lia; done.
Qed.

Lemma relativeDeltas_length (v : list float) :
  length (relativeDeltas v) = (length v - 1)%nat.
Proof.
  unfold relativeDeltas. rewrite length_zip_with.
  destruct v as [|v0 v]; [done|]. cbn [tail length]. lia.
Qed.

Lemma relativeDeltas_lookup (v : list float) (j : nat) (prev cur : float) :
  v !! j = Some prev → v !! S j = Some cur →
  relativeDeltas v !! j
    = Some (if (prev =? 0)%float then 0%float else ((cur - prev) / prev)%float).
Proof.
  intros Hprev Hcur. unfold relativeDeltas.
  rewrite lookup_zip_with, Hprev; simpl.
  destruct v as [|v0 v]; [done|]. simpl in *. by rewrite Hcur.
Qed.

(** The first loop of [calculateVolatility] writes in place: [changes]
    keeps its length. *)
Lemma changes_loop_length (points : list DataPoint) (idxs : list nat) : ∀ init,
  length (fold_left (λ changes i,
               match points !! (i - 1)%nat, points !! i with
               | Some prev, Some cur =>
                   if negb (Value prev =? 0)%float
                   then <[(i - 1)%nat := ((Value cur - Value prev) / Value prev)%float]> changes
                   else changes
               | _, _ => changes
               end) idxs init) = length init.
Proof.
  induction idxs as [|i idxs IH]; intros init; simpl; [done|].
  rewrite IH. destruct (points !! (i - 1)%nat), (points !! i); try done.
  destruct (negb _); [apply length_insert|done].
Qed.

(** After its iterations [i = 1 .. k], the first [k] entries of [changes]
    hold the deltas and the others are still zero. *)
Lemma changes_loop (points : list DataPoint) (k j : nat) :
  (k ≤ length points - 1)%nat →
  fold_left (λ changes i,
               match points !! (i - 1)%nat, points !! i with
               | Some prev, Some cur =>
                   if negb (Value prev =? 0)%float
                   then <[(i - 1)%nat := ((Value cur - Value prev) / Value prev)%float]> changes
                   else changes
               | _, _ => changes
               end)
            (seq 1 k) (replicate (length points - 1) 0%float) !! j
  = if decide (j < k)%nat then relativeDeltas (Value <$> points) !! j
    else replicate (length points - 1) 0%float !! j.
Proof.
  induction k as [|k IH]; intros Hk.
  - cbn [seq fold_left]. case_decide; [lia|done].
  - rewrite seq_S, fold_left_app. simpl.
    replace (k - 0)%nat with k by lia.
    destruct (lookup_lt_is_Some_2 points k ltac:(lia)) as [prev Hprev].
    destruct (lookup_lt_is_Some_2 points (S k) ltac:(lia)) as [cur Hcur].
    rewrite Hprev, Hcur.
    pose proof (relativeDeltas_lookup (Value <$> points) k (Value prev) (Value cur)) as HD.
    rewrite !list_lookup_fmap, Hprev, Hcur in HD. specialize (HD eq_refl eq_refl).
    pose proof (changes_loop_length points (seq 1 k) (replicate (length points - 1) 0%float))
      as Hlen.
    rewrite length_replicate in Hlen.
    destruct (Value prev =? 0)%float eqn:Hz; simpl.
    + rewrite IH by lia. destruct (decide (j = k)) as [->|Hne].
      * rewrite decide_False, decide_True by lia. rewrite HD.
        by rewrite lookup_replicate_2 by lia.
      * repeat case_decide; try lia; done.
    + destruct (decide (j = k)) as [->|Hne].
      * rewrite list_lookup_insert_eq by lia. rewrite decide_True by lia. by rewrite HD.
      * rewrite list_lookup_insert_ne by done. rewrite IH by lia.
        repeat case_decide; try lia; done.
Qed.

Lemma changes_are_deltas (points : list DataPoint) :
  fold_left (λ changes i,
               match points !! (i - 1)%nat, points !! i with
               | Some prev, Some cur =>
                   if negb (Value prev =? 0)%float
                   then <[(i - 1)%nat := ((Value cur - Value prev) / Value prev)%float]> changes
                   else changes
               | _, _ => changes
               end)
            (seq 1 (length points - 1)) (replicate (length points - 1) 0%float)
  = relativeDeltas (Value <$> points).
Proof.
  apply list_eq. intros j. rewrite changes_loop by lia.
  case_decide; [done|].
  transitivity (@None float); [apply lookup_replicate_None; lia|].
  symmetry. apply lookup_ge_None. rewrite relativeDeltas_length, length_fmap. lia.
Qed.

(** C2, as the code has it. [calculateVolatility] returns 0 for a window of
    fewer than 2 samples; for every window of at least 2 samples it returns
    the population standard deviation (denominator: the number of deltas,
    not that number minus one) of the relative deltas
    [(v[i]-v[i-1])/v[i-1]] of consecutive values, a delta with denominator 0
    counting as 0. *)
Theorem calculateVolatility_population (window : list DataPoint) :
  ((length window < 2)%nat → calculateVolatility window = 0%float) ∧
  ((2 ≤ length window)%nat →
     calculateVolatility window = populationStdDev (relativeDeltas (Value <$> window))).
Proof.
  unfold calculateVolatility. split; intros Hlen.
  - by rewrite decide_True.
  - rewrite decide_False by lia. by rewrite changes_are_deltas.
Qed.

Lemma calculateVolatility_population_witness :
  let window := sample <$> [100; 105; 95; 110]%float in
  ((length window < 2)%nat → calculateVolatility window = 0%float) ∧
  (2 ≤ length window)%nat ∧
  calculateVolatility window = populationStdDev (relativeDeltas (Value <$> window)).
Proof.
  intros window.
  pose proof (calculateVolatility_population window) as [H0 H2].
  split; [exact H0|]. split; [simpl; lia|]. apply H2. simpl; lia.
Defined.

(** C2, as stated, fails on the window [1, 2, 2]: its deltas are [1, 0],
    whose sample standard deviation is [sqrt(0.5)], and the code returns
    [0.5]. *)
Lemma calculateVolatility_not_sample :
  let window := sample <$> [1; 2; 2]%float in
  (2 ≤ length window)%nat ∧
  relativeDeltas (Value <$> window) = [1; 0]%float ∧
  calculateVolatility window = 0.5%float ∧
  sampleStdDev (relativeDeltas (Value <$> window)) = 0x1.6a09e667f3bcdp-1%float ∧
  calculateVolatility window ≠ sampleStdDev (relativeDeltas (Value <$> window)).
Proof.
  intros window. split; [simpl; lia|].
  split; [by vm_compute|]. split; [by vm_compute|]. split; [by vm_compute|].
  intros Heq. apply (f_equal (λ x, (x <? 0.6)%float)) in Heq.
  vm_compute in Heq. discriminate.
Qed.

(** With a single delta the result is 0 only while the arithmetic stays
    finite: a delta that overflows gives NaN. *)
Example calculateVolatility_overflow :
  calculateVolatility (sample <$> [0x1p-1000; 0x1p1000]%float) = nan.
Proof. by vm_compute. Qed.

Example calculateVolatility_two_points :
  calculateVolatility (sample <$> [100; 105]%float) = 0%float.
Proof. by vm_compute. Qed.

(** The cases of [clustering_test.go]. *)
Example ExtractFeatures_test :
  let points := sample <$> [10; 12; 11; 13; 14; 15]%float in
  ∃ features,
    ExtractFeatures points 3 = Some features ∧
    length features = 3%nat ∧
    features_dim 4 features ∧
    (λ f, Features f !! 0%nat) <$> head features = Some (Some 11%float).
Proof. eexists. split; [by vm_compute|]. split; [done|]. split; [|done]. repeat constructor. Qed.

Example calculateTrend_test :
  calculateTrend (sample <$> [10; 15; 20]%float) = 1%float.
Proof. by vm_compute. Qed.

Example calculateStdDev_test :
  let stddev := calculateStdDev (sample <$> [10; 12; 14; 16; 18]%float) in
  (0 <? stddev)%float = true ∧ (stddev <=? 10)%float = true.
Proof. by vm_compute. Qed.

End features.

(** ** The K-means engine *)

Section kmeans.
Import ml.

Lemma wrap64_fits (z : Z) : fits_int z → go.wrap64 z = z.
Proof.
  unfold fits_int, go.wrap64. intros Hz.
  rewrite Z.mod_small by lia. lia.
Qed.

Lemma sumSquaredDiffs_is_Some (a : list float) : ∀ b sum,
  (length a ≤ length b)%nat → is_Some (sumSquaredDiffs a b sum).
Proof.
  induction a as [|ai a IH]; intros b sum Hlen; simpl; [done|].
  destruct b as [|bi b]; simpl in *; [lia|]. apply IH. lia.
Qed.

Lemma euclideanDistance_is_Some (a b : list float) :
  (length a ≤ length b)%nat → is_Some (euclideanDistance a b).
Proof.
  intros Hlen. unfold euclideanDistance.
  destruct (sumSquaredDiffs_is_Some a b 0%float Hlen) as [sum ->]. by eexists.
Qed.

(** *** Assignment *)

Lemma nearestCluster_is_Some (features : list float) (clusters : list Cluster) :
  ∀ i minDist clusterIdx,
  Forall (λ c, (length features ≤ length (Centroid c))%nat) clusters →
  is_Some (nearestCluster features clusters i minDist clusterIdx).
Proof.
  induction clusters as [|c clusters IH]; intros i minDist clusterIdx Hdim; simpl; [done|].
  inversion_clear Hdim as [|? ? Hc Hrest].
  destruct (euclideanDistance_is_Some features (Centroid c) Hc) as [dist ->]. simpl.
  destruct (dist <? minDist)%float; by apply IH.
Qed.

Lemma nearestCluster_bound (features : list float) (clusters : list Cluster) :
  ∀ i minDist clusterIdx r,
  nearestCluster features clusters i minDist clusterIdx = Some r →
  r = clusterIdx ∨ (i ≤ r < i + length clusters)%nat.
Proof.
  induction clusters as [|c clusters IH]; intros i minDist clusterIdx r; simpl.
  - intros [= <-]. by left.
  - destruct (euclideanDistance features (Centroid c)) as [dist|]; simpl; [|done].
    destruct (dist <? minDist)%float; intros Hr; apply IH in Hr; lia.
Qed.

Lemma assignPoint_is_Some (clusters : list Cluster) (point : ClusterPoint) :
  clusters ≠ [] →
  Forall (λ c, (length (Features point) ≤ length (Centroid c))%nat) clusters →
  is_Some (assignPoint clusters point).
Proof.
  intros Hne Hdim. unfold assignPoint.
  destruct (nearestCluster_is_Some (Features point) clusters 0 infinity 0 Hdim) as [r Hr].
  rewrite Hr. simpl.
  assert (r < length clusters)%nat as Hlt.
  { apply nearestCluster_bound in Hr. destruct clusters; [done|simpl in *; lia]. }
  destruct (lookup_lt_is_Some_2 clusters r Hlt) as [c ->]. by eexists.
Qed.

Lemma assignPoint_spec (clusters clusters' : list Cluster) (point : ClusterPoint) :
  assignPoint clusters point = Some clusters' →
  Centroid <$> clusters' = Centroid <$> clusters ∧
  assigned clusters' ≡ₚ assigned clusters ++ [point].
Proof.
  unfold assignPoint.
  destruct (nearestCluster _ _ _ _ _) as [r|]; simpl; [|done].
  destruct (clusters !! r) as [c|] eqn:Hc; simpl; [|done].
  intros [= <-]. split.
  - rewrite list_fmap_insert. simpl. apply list_insert_id.
    by rewrite list_lookup_fmap, Hc.
  - unfold assigned. rewrite insert_take_drop by (by eapply lookup_lt_Some).
    rewrite <- (take_drop_middle clusters r c Hc) at 3.
    rewrite !fmap_app, !fmap_cons, !concat_app, !concat_cons. simpl.
    rewrite <- !app_assoc. do 2 f_equiv. apply Permutation_app_comm.
Qed.

Lemma assign_loop_spec (points : list ClusterPoint) : ∀ clusters clusters',
  go.foldM assignPoint clusters points = Some clusters' →
  Centroid <$> clusters' = Centroid <$> clusters ∧
  assigned clusters' ≡ₚ assigned clusters ++ points.
Proof.
  induction points as [|p points IH]; intros clusters clusters'; simpl.
  - intros [= <-]. by rewrite app_nil_r.
  - destruct (assignPoint clusters p) as [clusters1|] eqn:H1; simpl; [|done].
    intros Hrest. apply assignPoint_spec in H1 as [Hc1 Hp1].
    apply IH in Hrest as [Hc Hp]. split; [congruence|].
    rewrite Hp, Hp1. by rewrite <- app_assoc.
Qed.

Lemma centroids_dim_fmap (d : nat) (clusters : list Cluster) :
  centroids_dim d clusters ↔ Forall (λ c, length c = d) (Centroid <$> clusters).
Proof. unfold centroids_dim. by rewrite Forall_fmap. Qed.

Lemma assign_loop_is_Some (d : nat) (points : list ClusterPoint) : ∀ clusters,
  clusters ≠ [] → centroids_dim d clusters → features_dim d points →
  is_Some (go.foldM assignPoint clusters points).
Proof.
  induction points as [|p points IH]; intros clusters Hne Hc Hp; simpl; [done|].
  inversion_clear Hp as [|? ? Hp0 Hps].
  destruct (assignPoint_is_Some clusters p Hne) as [clusters1 H1].
  { eapply Forall_impl; [exact Hc|]. simpl. intros c Hcd. lia. }
  rewrite H1. simpl. apply IH; [| |done].
  - apply assignPoint_spec in H1 as [Hcs _].
    intros ->. destruct clusters; [done|discriminate].
  - apply assignPoint_spec in H1 as [Hcs _].
    apply centroids_dim_fmap. rewrite Hcs. by apply centroids_dim_fmap.
Qed.

Lemma assigned_cleared (clusters : list Cluster) :
  assigned ((λ c, {| Centroid := Centroid c; Points := [] |}) <$> clusters) = [].
Proof. unfold assigned. induction clusters as [|c clusters IH]; simpl; done. Qed.

Lemma assignPointsToClusters_spec (points : list ClusterPoint) (clusters clusters' : list Cluster) :
  assignPointsToClusters points clusters = Some clusters' →
  Centroid <$> clusters' = Centroid <$> clusters ∧ assigned clusters' ≡ₚ points.
Proof.
  unfold assignPointsToClusters. intros H. apply assign_loop_spec in H as [Hc Hp].
  rewrite assigned_cleared in Hp. split; [|done].
  rewrite Hc, <- list_fmap_compose. done.
Qed.

Lemma assignPointsToClusters_is_Some (d : nat) (points : list ClusterPoint)
    (clusters : list Cluster) :
  clusters ≠ [] → centroids_dim d clusters → features_dim d points →
  is_Some (assignPointsToClusters points clusters).
Proof.
  intros Hne Hc Hp. unfold assignPointsToClusters.
  apply (assign_loop_is_Some d); [| |done].
  - by destruct clusters.
  - apply centroids_dim_fmap. rewrite <- list_fmap_compose.
    by apply centroids_dim_fmap.
Qed.

(** *** Update *)

Lemma elem_of_assigned (clusters : list Cluster) (c : Cluster) (p : ClusterPoint) :
  c ∈ clusters → p ∈ Points c → p ∈ assigned clusters.
Proof.
  unfold assigned. induction clusters as [|c' clusters IH]; intros Hc Hp.
  - by apply not_elem_of_nil in Hc.
  - rewrite fmap_cons. simpl. apply elem_of_app.
    apply elem_of_cons in Hc as [->|Hc]; [by left|right; by apply IH].
Qed.

Lemma sum_column_is_Some (j : nat) (points : list ClusterPoint) : ∀ sum,
  Forall (λ p, (j < length (Features p))%nat) points →
  is_Some (go.foldM (λ sum point, x ← Features point !! j; Some (sum + x)%float) sum points).
Proof.
  induction points as [|p points IH]; intros sum Hdim; simpl; [done|].
  inversion_clear Hdim as [|? ? Hp Hps].
  destruct (lookup_lt_is_Some_2 (Features p) j Hp) as [x ->]. simpl. by apply IH.
Qed.

Lemma updateCentroid_spec (cluster cluster' : Cluster) :
  updateCentroid cluster = Some cluster' →
  Points cluster' = Points cluster ∧
  length (Centroid cluster') = length (Centroid cluster).
Proof.
  unfold updateCentroid. case_decide; [by intros [= <-]|].
  destruct (mapM _ _) as [centroid|] eqn:Hm; simpl; [|done].
  intros [= <-]. simpl. split; [done|].
  apply length_mapM in Hm. by rewrite length_seq in Hm.
Qed.

Lemma updateCentroid_is_Some (cluster : Cluster) :
  Forall (λ p, (length (Centroid cluster) ≤ length (Features p))%nat) (Points cluster) →
  is_Some (updateCentroid cluster).
Proof.
  intros Hdim. unfold updateCentroid. case_decide; [done|].
  destruct (mapM_is_Some_2
              (λ j, sum ← go.foldM (λ sum point, x ← Features point !! j; Some (sum + x)%float)
                                   0%float (Points cluster);
                    Some (sum / go.float64_of_len (length (Points cluster)))%float)
              (seq 0 (length (Centroid cluster)))) as [centroid ->]; [|by eexists].
  apply Forall_forall. intros j Hj. apply elem_of_seq in Hj. simpl.
  destruct (sum_column_is_Some j (Points cluster) 0%float) as [sum ->]; [|by eexists].
  eapply Forall_impl; [exact Hdim|]. simpl. intros p Hp. lia.
Qed.

Lemma updateCentroids_spec (clusters clusters' : list Cluster) :
  updateCentroids clusters = Some clusters' →
  assigned clusters' = assigned clusters ∧
  ∀ d, centroids_dim d clusters → centroids_dim d clusters'.
Proof.
  unfold updateCentroids, assigned, centroids_dim. intros H. apply mapM_Some_1 in H.
  induction H as [|c c' clusters clusters' Hc _ IH]; [done|].
  apply updateCentroid_spec in Hc as [HP HC]. destruct IH as [IHP IHC].
  split.
  - rewrite !fmap_cons. simpl. by rewrite HP, IHP.
  - intros d Hd. inversion_clear Hd. constructor; [congruence|by apply IHC].
Qed.

Lemma updateCentroids_is_Some (d : nat) (clusters : list Cluster) :
  centroids_dim d clusters → features_dim d (assigned clusters) →
  is_Some (updateCentroids clusters).
Proof.
  intros Hc Hp. apply mapM_is_Some_2.
  apply Forall_forall. intros c Hin. simpl. apply updateCentroid_is_Some.
  apply Forall_forall. intros p Hpin.
  assert (length (Centroid c) = d) as -> by (by eapply Forall_forall in Hc).
  pose proof (elem_of_assigned clusters c p Hin Hpin) as Hpa.
  unfold features_dim in Hp. by rewrite (proj1 (Forall_forall _ _) Hp p Hpa).
Qed.

(** *** Convergence test *)

Lemma hasConvergedFrom_is_Some (ce : ClusteringEngine) (oldCentroids : list (list float))
    (clusters : list Cluster) : ∀ i,
  (∀ j c, clusters !! j = Some c →
          ∃ old, oldCentroids !! (i + j)%nat = Some old ∧
                 (length old ≤ length (Centroid c))%nat) →
  is_Some (hasConvergedFrom ce oldCentroids i clusters).
Proof.
  induction clusters as [|c clusters IH]; intros i Hold; simpl; [done|].
  destruct (Hold 0%nat c eq_refl) as (old & Ho & Hlen).
  rewrite Nat.add_0_r in Ho. rewrite Ho. simpl.
  destruct (euclideanDistance_is_Some old (Centroid c) Hlen) as [dist ->]. simpl.
  destruct (Tolerance (config ce) <? dist)%float; [done|].
  apply IH. intros j c' Hj. destruct (Hold (S j) c' Hj) as (old' & Ho' & Hlen').
  exists old'. split; [|done]. by replace (S i + j)%nat with (i + S j)%nat by lia.
Qed.

Lemma hasConverged_is_Some (ce : ClusteringEngine) (d : nat) (clusters0 clusters : list Cluster) :
  length clusters = length clusters0 →
  centroids_dim d clusters0 → centroids_dim d clusters →
  is_Some (hasConverged ce (copyCentroids clusters0) clusters).
Proof.
  intros Hlen H0 H1. apply hasConvergedFrom_is_Some. intros j c Hj. simpl.
  destruct (lookup_lt_is_Some_2 clusters0 j) as [c0 Hc0].
  { rewrite <- Hlen. by eapply lookup_lt_Some. }
  exists (Centroid c0). unfold copyCentroids. rewrite list_lookup_fmap, Hc0. split; [done|].
  unfold centroids_dim in *.
  rewrite (Forall_lookup_1 _ _ _ _ H0 Hc0), (Forall_lookup_1 _ _ _ _ H1 Hj). done.
Qed.

(** *** The iteration *)

Lemma nonempty_same_length {A B} (l : list A) (k : list B) :
  length k = length l → l ≠ [] → k ≠ [].
Proof. destruct l, k; simpl; done. Qed.

Lemma fmap_eq_length {A B} (f : A → B) (l k : list A) :
  f <$> l = f <$> k → length l = length k.
Proof. intros H. apply (f_equal length) in H. by rewrite !length_fmap in H. Qed.

(** One pass of the loop body does not panic on clusters and points of one
    dimension, and leaves every point in exactly one cluster. *)
Lemma iterate_spec (ce : ClusteringEngine) (d : nat) (points : list ClusterPoint) :
  features_dim d points →
  ∀ iters clusters,
  clusters ≠ [] → centroids_dim d clusters →
  ∃ clusters',
    iterate ce points iters clusters = Some clusters' ∧
    length clusters' = length clusters ∧
    centroids_dim d clusters' ∧
    ((0 < iters)%nat ∨ assigned clusters ≡ₚ points → assigned clusters' ≡ₚ points).
Proof.
  intros Hp. induction iters as [|iters IH]; intros clusters Hne Hc.
  - exists clusters. simpl. repeat split; [done|]. intros [?|?]; [lia|done].
  - simpl.
    destruct (assignPointsToClusters_is_Some d points clusters Hne Hc Hp) as [clusters1 H1].
    rewrite H1. simpl. apply assignPointsToClusters_spec in H1 as [Hc1 Hp1].
    assert (centroids_dim d clusters1) as Hd1.
    { apply centroids_dim_fmap. rewrite Hc1. by apply centroids_dim_fmap. }
    destruct (updateCentroids_is_Some d clusters1 Hd1) as [clusters2 H2].
    { unfold features_dim. by rewrite Hp1. }
    rewrite H2. simpl. pose proof (length_mapM _ _ _ H2) as Hlen2.
    apply updateCentroids_spec in H2 as [Hp2 Hd2]. specialize (Hd2 d Hd1).
    apply fmap_eq_length in Hc1.
    destruct (hasConverged_is_Some ce d clusters clusters2) as [converged ->];
      [congruence|done|done|]. simpl.
    destruct converged.
    + exists clusters2. repeat split; [congruence|done|]. intros _. by rewrite Hp2.
    + destruct (IH clusters2) as (clusters' & Hit & Hlen & Hd & Hperm); [|done|].
      { eapply nonempty_same_length; [|exact Hne]. congruence. }
      exists clusters'. repeat split; [done|congruence|done|].
      intros _. apply Hperm. right. by rewrite Hp2.
Qed.

(** Whenever the loop returns, its clusters keep the dimension of the
    centroids it started from, and hold only points of the input. *)
Lemma iterate_dims (ce : ClusteringEngine) (d : nat) (points : list ClusterPoint) :
  ∀ iters clusters clusters',
  iterate ce points iters clusters = Some clusters' →
  centroids_dim d clusters → assigned clusters ⊆ points →
  centroids_dim d clusters' ∧ assigned clusters' ⊆ points.
Proof.
  induction iters as [|iters IH]; intros clusters clusters'; simpl.
  - by intros [= <-].
  - destruct (assignPointsToClusters points clusters) as [clusters1|] eqn:H1; simpl; [|done].
    destruct (updateCentroids clusters1) as [clusters2|] eqn:H2; simpl; [|done].
    destruct (hasConverged ce (copyCentroids clusters) clusters2) as [converged|]; simpl; [|done].
    intros Hres Hc _.
    apply assignPointsToClusters_spec in H1 as [Hc1 Hp1].
    apply updateCentroids_spec in H2 as [Hp2 Hd2].
    assert (centroids_dim d clusters2) as Hd.
    { apply Hd2, centroids_dim_fmap. rewrite Hc1. by apply centroids_dim_fmap. }
    assert (assigned clusters2 ⊆ points) as Hsub.
    { rewrite Hp2. intros p. by rewrite Hp1. }
    destruct converged; [by injection Hres as <-|]. by eapply IH.
Qed.

(** *** Seeding *)

Lemma seed_index (k len i : Z) :
  0 ≤ i < k → fits_int (len * k) → 0 < len →
  go.wrap64 (i * len) `quot` k = (i * len) `div` k ∧
  0 ≤ (i * len) `div` k < len.
Proof.
  unfold fits_int. intros Hi Hfit Hlen.
  rewrite wrap64_fits by (unfold fits_int; nia).
  rewrite Z.quot_div_nonneg by nia. split; [done|]. split.
  - apply Z.div_pos; nia.
  - apply Z.div_lt_upper_bound; nia.
Qed.

Lemma initializeClusters_seeds (ce : ClusteringEngine) (points : list ClusterPoint) :
  1 ≤ K (config ce) → K (config ce) ≤ Z.of_nat (length points) →
  fits_int (Z.of_nat (length points) * K (config ce)) →
  ∃ seeds,
    initializeClusters ce points = Some seeds ∧
    length seeds = Z.to_nat (K (config ce)) ∧
    ∀ i, 0 ≤ i < K (config ce) →
      ∃ p, go.index points ((i * Z.of_nat (length points)) `div` K (config ce)) = Some p ∧
           go.index seeds i = Some {| Centroid := Features p; Points := [] |}.
Proof.
  intros HK Hlen Hfit. unfold initializeClusters. rewrite decide_False by lia.
  set (seed := λ i : Z, _).
  assert (∀ i, 0 ≤ i < K (config ce) →
            ∃ p, go.index points ((i * Z.of_nat (length points)) `div` K (config ce)) = Some p ∧
                 seed i = Some {| Centroid := Features p; Points := [] |}) as Hseed.
  { intros i Hi. subst seed. simpl.
    destruct (seed_index (K (config ce)) (Z.of_nat (length points)) i) as (-> & H0 & Hlt);
      [done|done|lia|].
    unfold go.index. rewrite decide_True by done.
    destruct (lookup_lt_is_Some_2 points
                (Z.to_nat ((i * Z.of_nat (length points)) `div` K (config ce)))) as [p Hp];
      [lia|].
    exists p. by rewrite Hp. }
  destruct (mapM_is_Some_2 seed (seqZ 0 (K (config ce)))) as [seeds Hseeds].
  { apply Forall_forall. intros i Hi. apply elem_of_seqZ in Hi. simpl.
    destruct (Hseed i) as (p & _ & ->); [lia|by eexists]. }
  exists seeds. split; [done|].
  pose proof (length_mapM _ _ _ Hseeds) as Hl. rewrite length_seqZ in Hl.
  split; [done|]. intros i Hi.
  destruct (Hseed i Hi) as (p & Hp & Hsi). exists p. split; [done|].
  apply mapM_Some_1 in Hseeds.
  destruct (Forall2_lookup_l _ _ _ (Z.to_nat i) i Hseeds) as (c & Hc & Hci).
  { apply lookup_seqZ. lia. }
  unfold go.index. rewrite decide_True by lia. rewrite Hc. congruence.
Qed.

(** Whenever seeding returns, every seed is the feature vector of an input
    point and has no point assigned. *)
Lemma initializeClusters_dims (ce : ClusteringEngine) (d : nat) (points : list ClusterPoint)
    (seeds : list Cluster) :
  initializeClusters ce points = Some seeds → features_dim d points →
  centroids_dim d seeds ∧ assigned seeds = [].
Proof.
  unfold initializeClusters. case_decide; [done|].
  intros Hm Hp. apply mapM_Some_1 in Hm.
  unfold centroids_dim, assigned.
  induction Hm as [|i c idxs cs Hc _ [IHd IHa]]; [done|].
  unfold go.index in Hc. case_decide; [|done].
  destruct (points !! _) as [p|] eqn:Hpt; simpl in Hc; [|done].
  injection Hc as <-. split.
  - constructor; [|done]. simpl. by eapply (Forall_lookup_1 _ _ _ _ Hp).
  - rewrite fmap_cons. simpl. done.
Qed.

(** *** [KMeans] *)

(** Whenever [KMeans] returns, on feature vectors of one dimension, its
    centroids and its assigned points have that dimension. *)
Lemma KMeans_dims (ce : ClusteringEngine) (d : nat) (points : list ClusterPoint)
    (clusters : list Cluster) :
  KMeans ce points = Some clusters → features_dim d points →
  centroids_dim d clusters ∧ features_dim d (assigned clusters).
Proof.
  unfold KMeans. case_decide.
  - intros [= <-] _. split; constructor.
  - destruct (initializeClusters ce points) as [seeds|] eqn:Hs; simpl; [|done].
    intros Hit Hp. destruct (initializeClusters_dims _ d _ _ Hs Hp) as [Hd Ha].
    destruct (iterate_dims ce d points _ _ _ Hit Hd) as [Hd' Hsub].
    { rewrite Ha. apply list_subseteq_nil. }
    split; [done|]. apply Forall_forall. intros p Hin.
    by apply (proj1 (Forall_forall _ _) Hp), Hsub.
Qed.

(** The engine reads [K], [MaxIter] and [Tolerance], nothing else of its
    configuration. *)
Lemma hasConvergedFrom_config (ce1 ce2 : ClusteringEngine) oldCentroids clusters :
  Tolerance (config ce1) = Tolerance (config ce2) →
  ∀ i, hasConvergedFrom ce1 oldCentroids i clusters = hasConvergedFrom ce2 oldCentroids i clusters.
Proof.
  intros HT. induction clusters as [|c clusters IH]; intros i; simpl; [done|].
  rewrite HT. destruct (oldCentroids !! i); simpl; [|done].
  destruct (euclideanDistance _ _); simpl; [|done]. by rewrite IH.
Qed.

Lemma iterate_config (ce1 ce2 : ClusteringEngine) points :
  Tolerance (config ce1) = Tolerance (config ce2) →
  ∀ iters clusters, iterate ce1 points iters clusters = iterate ce2 points iters clusters.
Proof.
  intros HT. induction iters as [|iters IH]; intros clusters; simpl; [done|].
  destruct (assignPointsToClusters points clusters) as [clusters1|]; simpl; [|done].
  destruct (updateCentroids clusters1) as [clusters2|]; simpl; [|done].
  unfold hasConverged. rewrite (hasConvergedFrom_config ce1 ce2) by done.
  destruct (hasConvergedFrom ce2 _ _ _) as [[]|]; simpl; [done| |done]. apply IH.
Qed.

(** C4, as the code has it. For [K ≥ 1], at least one iteration
    ([MaxIter ≥ 1]) and at least [K] input points of one dimension [d]
    (with [len(points) * K] inside the range of [int]), [KMeans] returns [K]
    clusters that partition the input: the assigned points of all clusters
    together are the input points, each exactly once; and every centroid
    has dimension [d]. *)
Theorem KMeans_partition (ce : ClusteringEngine) (d : nat) (points : list ClusterPoint) :
  1 ≤ K (config ce) →
  1 ≤ MaxIter (config ce) →
  K (config ce) ≤ Z.of_nat (length points) →
  fits_int (Z.of_nat (length points) * K (config ce)) →
  features_dim d points →
  ∃ clusters,
    KMeans ce points = Some clusters ∧
    length clusters = Z.to_nat (K (config ce)) ∧
    assigned clusters ≡ₚ points ∧
    centroids_dim d clusters.
Proof.
  intros HK HM Hlen Hfit Hp. unfold KMeans. rewrite decide_False by lia.
  destruct (initializeClusters_seeds ce points HK Hlen Hfit) as (seeds & Hs & Hl & _).
  rewrite Hs. simpl.
  destruct (initializeClusters_dims ce d points seeds Hs Hp) as [Hd _].
  destruct (iterate_spec ce d points Hp (Z.to_nat (MaxIter (config ce))) seeds)
    as (clusters & Hit & Hlen' & Hd' & Hperm); [|done|].
  { intros ->. simpl in Hl. lia. }
  exists clusters. repeat split; [done|congruence| |done].
  apply Hperm. left. lia.
Qed.

Lemma KMeans_partition_witness :
  let ce := NewClusteringEngine {| K := 2; MaxIter := 10; Tolerance := 0.1; FeatureNames := [] |} in
  let points := (λ f, {| Features := f; Label := ""; Original := None |}) <$>
                [[1; 1]; [1.5; 1.5]; [2; 2]; [10; 10]; [10.5; 10.5]; [11; 11]]%float in
  ∃ clusters,
    KMeans ce points = Some clusters ∧
    length clusters = 2%nat ∧
    assigned clusters ≡ₚ points ∧
    centroids_dim 2 clusters.
Proof.
  intros ce points. apply (KMeans_partition ce 2 points).
  - simpl; lia.
  - simpl; lia.
  - simpl; lia.
  - unfold fits_int; simpl; lia.
  - unfold points. repeat constructor.
Defined.

(** C4, as stated, fails when [MaxIter] is 0: the loop body never runs and
    the seeds are returned with no point assigned. *)
Lemma KMeans_no_iteration_no_partition :
  let ce := NewClusteringEngine {| K := 2; MaxIter := 0; Tolerance := 0.1; FeatureNames := [] |} in
  let points := (λ f, {| Features := f; Label := ""; Original := None |}) <$>
                [[1; 1]; [10; 10]]%float in
  1 ≤ K (config ce) ∧ K (config ce) ≤ Z.of_nat (length points) ∧
  ∃ clusters, KMeans ce points = Some clusters ∧ assigned clusters = [] ∧
              ¬ assigned clusters ≡ₚ points.
Proof.
  intros ce points. split; [simpl; lia|]. split; [simpl; lia|].
  eexists. split; [by vm_compute|]. split; [done|].
  intros Hperm. apply Permutation_length in Hperm. simpl in Hperm. lia.
Qed.

(** C8. [KMeans] is a function of [K], [MaxIter], [Tolerance] and the input
    sequence alone: two runs that agree on these return the same clusters
    (or panic alike). It starts its iteration from [K] seeds, and seed [i]
    is the feature vector of the input point at index [i * len(points) / K]
    (for [1 ≤ K ≤ len(points)], the product inside the range of [int]),
    with no point assigned. *)
Theorem KMeans_deterministic (ce1 ce2 : ClusteringEngine) (points : list ClusterPoint) :
  K (config ce1) = K (config ce2) →
  MaxIter (config ce1) = MaxIter (config ce2) →
  Tolerance (config ce1) = Tolerance (config ce2) →
  KMeans ce1 points = KMeans ce2 points ∧
  (1 ≤ K (config ce1) → K (config ce1) ≤ Z.of_nat (length points) →
   fits_int (Z.of_nat (length points) * K (config ce1)) →
   ∃ seeds,
     initializeClusters ce1 points = Some seeds ∧
     KMeans ce1 points = iterate ce1 points (Z.to_nat (MaxIter (config ce1))) seeds ∧
     length seeds = Z.to_nat (K (config ce1)) ∧
     ∀ i, 0 ≤ i < K (config ce1) →
       ∃ p, go.index points ((i * Z.of_nat (length points)) `div` K (config ce1)) = Some p ∧
            go.index seeds i = Some {| Centroid := Features p; Points := [] |}).
Proof.
  intros HK HM HT. split.
  - unfold KMeans, initializeClusters. rewrite HK, HM.
    case_decide; [done|]. case_decide; [done|].
    destruct (mapM _ _) as [seeds|]; simpl; [|done]. by apply iterate_config.
  - intros H1 Hlen Hfit.
    destruct (initializeClusters_seeds ce1 points H1 Hlen Hfit) as (seeds & Hs & Hl & Hseed).
    exists seeds. repeat split; [done| |done|done].
    unfold KMeans. rewrite decide_False by lia. by rewrite Hs.
Qed.

Lemma KMeans_deterministic_witness :
  let ce1 := NewClusteringEngine {| K := 3; MaxIter := 100; Tolerance := 0.01; FeatureNames := [] |} in
  let ce2 := NewClusteringEngine {| K := 3; MaxIter := 100; Tolerance := 0.01;
                                    FeatureNames := ["mean"; "stddev"] |} in
  let points := (λ f, {| Features := f; Label := ""; Original := None |}) <$>
                [[1]; [2]; [3]; [4]; [5]; [6]; [7]]%float in
  KMeans ce1 points = KMeans ce2 points ∧
  ∃ seeds,
    initializeClusters ce1 points = Some seeds ∧
    Centroid <$> seeds = [[1]; [3]; [5]]%float.
Proof.
  intros ce1 ce2 points.
  destruct (KMeans_deterministic ce1 ce2 points eq_refl eq_refl eq_refl) as [Heq Hseeds].
  split; [exact Heq|].
  destruct Hseeds as (seeds & Hs & _); [simpl; lia|simpl; lia|unfold fits_int; simpl; lia|].
  exists seeds. split; [exact Hs|].
  vm_compute in Hs. injection Hs as <-. reflexivity.
Defined.

(** The cases of [clustering_test.go]. *)
Example euclideanDistance_test :
  euclideanDistance [0; 0]%float [3; 4]%float = Some 5%float.
Proof. by vm_compute. Qed.

Example KMeans_test :
  let ce := NewClusteringEngine {| K := 2; MaxIter := 10; Tolerance := 0.1; FeatureNames := [] |} in
  let points := (λ f, {| Features := f; Label := ""; Original := None |}) <$>
                [[1; 1]; [1.5; 1.5]; [2; 2]; [10; 10]; [10.5; 10.5]; [11; 11]]%float in
  ∃ clusters,
    KMeans ce points = Some clusters ∧
    Centroid <$> clusters = [[1.5; 1.5]; [10.5; 10.5]]%float ∧
    (λ c : Cluster, Features <$> Points c) <$> clusters
      = [ [[1; 1]; [1.5; 1.5]; [2; 2]]; [[10; 10]; [10.5; 10.5]; [11; 11]] ]%float.
Proof. eexists. split; [by vm_compute|]. by split. Qed.

End kmeans.

(** ** The detector *)

Section detector.
Import timeseries ml anomaly.

(** *** Feature extraction never panics for a window size ≥ 0 *)

Lemma ExtractFeatures_is_Some (points : list DataPoint) (windowSize : Z) :
  0 ≤ windowSize → is_Some (ExtractFeatures points windowSize).
Proof.
  intros Hw. unfold ExtractFeatures. apply mapM_is_Some_2.
  apply Forall_forall. intros i Hi. apply elem_of_seqZ in Hi. simpl.
  unfold go.slice, go.index. rewrite !decide_True by lia.
  destruct (lookup_lt_is_Some_2 points (Z.to_nat i)) as [p ->]; [lia|]. by eexists.
Qed.

Lemma ExtractFeatures_spec (points : list DataPoint) (windowSize : Z)
    (features : list ClusterPoint) :
  ExtractFeatures points windowSize = Some features →
  0 ≤ windowSize ∧
  length features = Z.to_nat (Z.of_nat (length points) - windowSize) ∧
  features_dim 4 features.
Proof.
  unfold ExtractFeatures. intros Hm. split; [|split].
  - destruct (Z.le_gt_cases 0 windowSize) as [|Hneg]; [done|exfalso].
    rewrite seqZ_cons in Hm by lia. simpl in Hm.
    unfold go.slice in Hm. rewrite decide_False in Hm by lia. done.
  - apply length_mapM in Hm. by rewrite length_seqZ in Hm.
  - apply mapM_Some_1 in Hm. unfold features_dim.
    induction Hm as [|i f idxs fs Hf _ IH]; constructor; [|done].
    destruct (go.slice _ _ _); simpl in Hf; [|done].
    destruct (go.index _ _); simpl in Hf; [|done]. by injection Hf as <-.
Qed.

(** *** The dynamic threshold *)

Lemma sumSquaredDiffs_zip (a : list float) : ∀ b sum,
  (length a ≤ length b)%nat →
  sumSquaredDiffs a b sum
    = Some (fold_left (λ s xy, (s + (xy.1 - xy.2) * (xy.1 - xy.2))%float) (zip a b) sum).
Proof.
  induction a as [|ai a IH]; intros b sum Hlen; simpl; [done|].
  destruct b as [|bi b]; simpl in *; [lia|]. apply IH. lia.
Qed.

Lemma euclideanDistance_euclidean (a b : list float) :
  (length a ≤ length b)%nat → anomaly.euclideanDistance a b = Some (euclidean a b).
Proof.
  intros Hlen. unfold anomaly.euclideanDistance, euclidean.
  by rewrite sumSquaredDiffs_zip.
Qed.

Lemma variance_loop (centroid : list float) (points : list ClusterPoint) : ∀ variance,
  Forall (λ p, (length (Features p) ≤ length centroid)%nat) points →
  go.foldM (λ variance point,
              distance ← anomaly.euclideanDistance (Features point) centroid;
              Some (variance + distance * distance)%float) variance points
  = Some (fold_left (λ s x, (s + x)%float)
            ((λ p, let dist := euclidean (Features p) centroid in (dist * dist)%float) <$> points)
            variance).
Proof.
  induction points as [|p points IH]; intros variance Hdim; simpl; [done|].
  inversion_clear Hdim as [|? ? Hp Hps].
  rewrite euclideanDistance_euclidean by done. simpl. by apply IH.
Qed.

Lemma accumulateVariance_loop (clusters : list Cluster) : ∀ totalVariance totalPoints,
  baseline_wf clusters →
  go.foldM accumulateVariance (totalVariance, totalPoints) clusters
  = Some (fold_left (λ s x, (s + x)%float)
            ((λ c, (intraClusterVariance c * go.float64_of_len (length (Points c)))%float)
               <$> filter (λ c, (0 < length (Points c))%nat) clusters)
            totalVariance,
          (totalPoints + length (assigned clusters))%nat).
Proof.
  unfold baseline_wf, assigned.
  induction clusters as [|c clusters IH]; intros totalVariance totalPoints Hwf.
  - simpl. by rewrite Nat.add_0_r.
  - inversion_clear Hwf as [|? ? Hc Hcs]. cbn [go.foldM accumulateVariance].
    rewrite filter_cons, fmap_cons. cbn [concat]. rewrite length_app.
    case_decide as Hempty.
    + simpl. rewrite IH by done. rewrite decide_False by lia.
      rewrite Hempty. done.
    + rewrite variance_loop by done. simpl. rewrite IH by done.
      rewrite decide_True by lia. simpl.
      rewrite Nat.add_assoc. done.
Qed.

(** The loops of [calculateDynamicThreshold] compute [dynamicThreshold]. *)
Lemma calculateDynamicThreshold_dynamicThreshold (d : Detector) (clusters : list Cluster) :
  baseline_wf clusters →
  calculateDynamicThreshold d clusters
    = Some (dynamicThreshold (SensitivityLevel (anomaly.config d)) clusters).
Proof.
  intros Hwf. unfold calculateDynamicThreshold, dynamicThreshold.
  case_decide as Hlen.
  - by destruct clusters.
  - rewrite accumulateVariance_loop by done. simpl. by case_decide.
Qed.

(** C9. On every baseline whose assigned points have no more features than
    their centroid, the dynamic threshold is
    [sqrt(pooledVariance) * sensitivityLevel], where the variance of a
    cluster is the mean squared Euclidean distance of its assigned points
    to its centroid and [pooledVariance] is the mean of these variances
    over the clusters with a point, weighted by their sizes; with no
    assigned point at all the threshold is exactly 1.0. *)
Theorem calculateDynamicThreshold_pooled (d : Detector) (clusters : list Cluster) :
  baseline_wf clusters →
  (length (assigned clusters) ≠ 0%nat →
     calculateDynamicThreshold d clusters
       = Some (PrimFloat.sqrt (pooledVariance clusters) * SensitivityLevel (anomaly.config d))%float) ∧
  (length (assigned clusters) = 0%nat → calculateDynamicThreshold d clusters = Some 1%float).
Proof.
  intros Hwf. rewrite calculateDynamicThreshold_dynamicThreshold by done.
  unfold dynamicThreshold. split; intros H; by case_decide.
Qed.

Lemma calculateDynamicThreshold_pooled_witness :
  let clusters :=
    [ {| Centroid := [1; 1]%float;
         Points := [ {| Features := [0; 1]%float; Label := ""; Original := None |};
                     {| Features := [2; 1]%float; Label := ""; Original := None |} ] |};
      {| Centroid := [5; 5]%float; Points := [] |};
      {| Centroid := [9; 9]%float;
         Points := [ {| Features := [9; 12]%float; Label := ""; Original := None |} ] |} ] in
  baseline_wf clusters ∧
  pooledVariance clusters = (11 / 3)%float ∧
  calculateDynamicThreshold defaultDetector clusters
    = Some (PrimFloat.sqrt (11 / 3) * 2)%float.
Proof.
  intros clusters.
  assert (baseline_wf clusters) as Hwf.
  { unfold baseline_wf, clusters. repeat constructor. }
  split; [exact Hwf|]. split; [by vm_compute|].
  destruct (calculateDynamicThreshold_pooled defaultDetector clusters Hwf) as [H _].
  rewrite H; [by vm_compute|]. simpl. lia.
Defined.

(** *** Stored baselines *)

Lemma baseline_ok_wf (cfg : DetectionConfig) (clusters : list Cluster) :
  baseline_ok cfg clusters → baseline_wf clusters.
Proof.
  intros (_ & Hc & Hp). unfold baseline_wf.
  apply Forall_forall. intros c Hc_in. apply Forall_forall. intros p Hp_in.
  unfold centroids_dim, features_dim in *.
  rewrite (proj1 (Forall_forall _ _) Hc c Hc_in).
  by rewrite (proj1 (Forall_forall _ _) Hp p (elem_of_assigned clusters c p Hc_in Hp_in)).
Qed.

Lemma NewDetector_ok (cfg : DetectionConfig) (ce : ClusteringEngine) :
  detector_ok (NewDetector cfg ce).
Proof. intros serviceName clusters. simpl. by rewrite lookup_empty. Qed.

Lemma LearnBaseline_ok (d d' : Detector) (serviceName : string) (points : list DataPoint)
    (err : go.error) :
  detector_ok d → LearnBaseline d serviceName points = Some (d', err) → detector_ok d'.
Proof.
  intros Hok. unfold LearnBaseline. case_decide; [by intros [= <- <-]|].
  destruct (ExtractFeatures points _) as [features|] eqn:Hf; simpl; [|done].
  destruct (KMeans _ features) as [clusters|] eqn:Hk; simpl; [|done].
  intros [= <- <-]. intros name clusters'. simpl.
  apply ExtractFeatures_spec in Hf as (Hw & _ & Hdim).
  destruct (KMeans_dims _ 4 _ _ Hk Hdim) as [Hc Hp].
  destruct (decide (serviceName = name)) as [->|Hne].
  - rewrite lookup_insert_eq. intros [= <-]. done.
  - rewrite lookup_insert_ne by done. apply Hok.
Qed.

Lemma reachable_ok (d : Detector) : reachable d → detector_ok d.
Proof.
  induction 1 as [cfg ce|d serviceName points d' err _ IH Hlearn].
  - apply NewDetector_ok.
  - by eapply LearnBaseline_ok.
Qed.

(** *** Detection does not panic *)

Lemma minDistance_loop_is_Some (features : list float) (clusters : list Cluster) :
  ∀ minDistance,
  Forall (λ c, (length features ≤ length (Centroid c))%nat) clusters →
  is_Some (go.foldM (λ minDistance cluster,
                       distance ← anomaly.euclideanDistance features (Centroid cluster);
                       Some (if (distance <? minDistance)%float then distance else minDistance))
                    minDistance clusters).
Proof.
  induction clusters as [|c clusters IH]; intros minDistance Hdim; simpl; [done|].
  inversion_clear Hdim as [|? ? Hc Hcs].
  rewrite euclideanDistance_euclidean by done. simpl. by apply IH.
Qed.

Lemma detectMLAnomalies_is_Some (d : Detector) (now : Z) (serviceName : string)
    (points : list DataPoint) (clusters : list Cluster) :
  baseline_ok (anomaly.config d) clusters →
  is_Some (detectMLAnomalies d now serviceName points clusters).
Proof.
  intros Hok. pose proof Hok as (Hw & Hc & Hp).
  unfold detectMLAnomalies. case_decide; [done|].
  destruct (ExtractFeatures_is_Some points _ Hw) as [features Hf]. rewrite Hf. simpl.
  apply ExtractFeatures_spec in Hf as (_ & _ & Hdim).
  destruct (last features) as [latest|] eqn:Hlast; [|done].
  assert (length (Features latest) = 4%nat) as Hl4.
  { apply last_Some_elem_of in Hlast.
    by apply (proj1 (Forall_forall _ _) Hdim). }
  destruct (minDistance_loop_is_Some (Features latest) clusters infinity) as [minDistance ->].
  { eapply Forall_impl; [exact Hc|]. simpl. intros c Hc4. lia. }
  simpl.
  rewrite (calculateDynamicThreshold_dynamicThreshold d clusters (baseline_ok_wf _ _ Hok)).
  simpl. by destruct (_ <? _)%float.
Qed.

Lemma DetectAnomalies_is_Some (d : Detector) (now : Z) (serviceName : string)
    (recentPoints : list DataPoint) :
  detector_ok d →
  ∃ anomalies, DetectAnomalies d now serviceName recentPoints = Some (anomalies, None).
Proof.
  intros Hok. unfold DetectAnomalies.
  destruct (baselines d !! serviceName) as [clusters|] eqn:Hb; [|by eexists].
  destruct (detectMLAnomalies_is_Some d now serviceName recentPoints clusters (Hok _ _ Hb))
    as [mlAnomalies ->].
  by eexists.
Qed.



(** *** The high-error-rate rule *)

Lemma detectMLAnomalies_types (d : Detector) (now : Z) (serviceName : string)
    (points : list DataPoint) (clusters : list Cluster) (mlAnomalies : list Anomaly) :
  detectMLAnomalies d now serviceName points clusters = Some mlAnomalies →
  Forall (λ a, Type_ a = "behavioral_anomaly") mlAnomalies.
Proof.
  unfold detectMLAnomalies. case_decide; [by intros [= <-]|].
  destruct (ExtractFeatures _ _) as [features|]; simpl; [|done].
  destruct (last features) as [latest|]; [|by intros [= <-]].
  destruct (go.foldM _ _ _) as [minDistance|]; simpl; [|done].
  destruct (calculateDynamicThreshold _ _) as [threshold|]; simpl; [|done].
  destruct (_ <? _)%float; intros [= <-]; repeat constructor.
Qed.

Lemma filter_other_type (ty : AnomalyType) (anomalies : list Anomaly) :
  Forall (λ a, Type_ a ≠ ty) anomalies → filter (λ a, Type_ a = ty) anomalies = [].
Proof.
  induction 1 as [|a anomalies Ha _ IH]; [done|].
  rewrite filter_cons. by rewrite decide_False.
Qed.

(** The high-error-rate anomalies of the static path. *)
Lemma detectStaticAnomalies_error_rate (d : Detector) (serviceName : string)
    (points : list DataPoint) (latest : DataPoint) :
  last points = Some latest →
  filter (λ a, Type_ a = ErrorRateHigh) (detectStaticAnomalies d serviceName points)
  = if decide (2 ≤ length points)%nat
    then if (ErrorRateThreshold (anomaly.config d) <? Value latest)%float
         then [{| Type_ := ErrorRateHigh;
                  ServiceName := serviceName;
                  Namespace := "";
                  Severity := (Value latest / ErrorRateThreshold (anomaly.config d))%float;
                  Description := go.Sprintf "High error rate: %.2f%%" [(Value latest * 100)%float];
                  Timestamp := timeseries.Timestamp latest;
                  Metrics := {[ "error_rate" := Value latest ]};
                  Labels := ∅ |}]
         else []
    else [].
Proof.
  intros Hlast. unfold detectStaticAnomalies, isHighErrorRate. rewrite Hlast.
  case_decide; [by rewrite decide_False by lia|]. rewrite decide_True by lia.
  destruct (isTrafficSpike d points), (_ <? _)%float; simpl;
    rewrite ?filter_cons, ?filter_nil; repeat case_decide; done.
Qed.

(** C3, as the code has it. The rule looks at inputs of at least 2 points:
    on such an input whose latest value exceeds [ErrorRateThreshold], a
    detection call emits exactly one high-error-rate anomaly, for the
    service, with severity [latestValue / ErrorRateThreshold]; when the
    latest value does not exceed the threshold no such anomaly is
    emitted. *)
Theorem high_error_rate_rule (d : Detector) (now : Z) (serviceName : string)
    (points : list DataPoint) (latest : DataPoint) :
  reachable d →
  last points = Some latest →
  ∃ anomalies,
    DetectAnomalies d now serviceName points = Some (anomalies, None) ∧
    ((2 ≤ length points)%nat →
     (ErrorRateThreshold (anomaly.config d) <? Value latest)%float = true →
     ∃ a, filter (λ a, Type_ a = ErrorRateHigh) anomalies = [a] ∧
          ServiceName a = serviceName ∧
          Severity a = (Value latest / ErrorRateThreshold (anomaly.config d))%float) ∧
    ((ErrorRateThreshold (anomaly.config d) <? Value latest)%float = false →
     filter (λ a, Type_ a = ErrorRateHigh) anomalies = []).
Proof.
  intros Hr Hlast.
  destruct (DetectAnomalies_is_Some d now serviceName points (reachable_ok d Hr))
    as [anomalies Hdet].
  exists anomalies. split; [done|].
  assert (filter (λ a, Type_ a = ErrorRateHigh) anomalies
          = filter (λ a, Type_ a = ErrorRateHigh) (detectStaticAnomalies d serviceName points))
    as ->.
  { unfold DetectAnomalies in Hdet.
    destruct (baselines d !! serviceName) as [clusters|]; [|by injection Hdet as <-].
    destruct (detectMLAnomalies _ _ _ _ _) as [mlAnomalies|] eqn:Hml; simpl in Hdet; [|done].
    injection Hdet as <-. simpl. rewrite filter_app.
    rewrite (filter_other_type _ mlAnomalies); [by rewrite app_nil_r|].
    eapply Forall_impl; [by eapply detectMLAnomalies_types|].
    simpl. intros a ->. done. }
  rewrite (detectStaticAnomalies_error_rate d serviceName points latest Hlast).
  split.
  - intros Hlen Hgt. rewrite decide_True by done. rewrite Hgt. by eexists.
  - intros Hle. rewrite Hle. by case_decide.
Qed.

Lemma high_error_rate_rule_witness :
  let points := sample <$> [0.01; 0.9]%float in
  ∃ anomalies a,
    DetectAnomalies defaultDetector 0 "svc" points = Some (anomalies, None) ∧
    filter (λ a, Type_ a = ErrorRateHigh) anomalies = [a] ∧
    Severity a = (0.9 / 0.05)%float.
Proof.
  intros points.
  destruct (high_error_rate_rule defaultDetector 0 "svc" points (sample 0.9)
              (reachable_new _ _) eq_refl) as (anomalies & Hdet & Hfire & _).
  destruct Hfire as (a & Ha & _ & Hsev); [simpl; lia|by vm_compute|].
  by exists anomalies, a.
Defined.

(** C3, as stated, fails on a non-empty input of one point: the static
    path returns before the rule is tried. *)
Lemma high_error_rate_single_point :
  let points := [sample 0.9] in
  last points = Some (sample 0.9) ∧
  (ErrorRateThreshold (anomaly.config defaultDetector) <? Value (sample 0.9))%float = true ∧
  DetectAnomalies defaultDetector 0 "svc" points = Some ([], None).
Proof. by vm_compute. Qed.

(** *** Too few feature vectors for clustering *)

(** [LearnBaseline] has one early return, for fewer points than
    [WindowSize]; past it, the result of [KMeans] is stored as it is. With
    fewer feature vectors than [K] that result is empty, and it replaces
    the baseline of the service. *)
Lemma LearnBaseline_few_features (d : Detector) (serviceName : string)
    (points : list DataPoint) (features : list ClusterPoint) :
  anomaly.WindowSize (anomaly.config d) ≤ Z.of_nat (length points) →
  ExtractFeatures points (anomaly.WindowSize (anomaly.config d)) = Some features →
  Z.of_nat (length features) < K (ml.config (clusteringEngine d)) →
  LearnBaseline d serviceName points
    = Some ({| anomaly.config := anomaly.config d;
               clusteringEngine := clusteringEngine d;
               baselines := <[serviceName := []]> (baselines d) |}, None).
Proof.
  intros Hw Hf Hk. unfold LearnBaseline. rewrite decide_False by lia.
  rewrite Hf. simpl. unfold KMeans. by rewrite decide_True by done.
Qed.

Lemma last_is_Some {A} (l : list A) : l ≠ [] → is_Some (last l).
Proof.
  intros Hne. destruct (last l) eqn:Hl; [by eexists|].
  by apply last_None in Hl.
Qed.

(** Against an empty stored baseline the minimum distance stays [+Inf] and
    the threshold is 1.0: every input of more than [WindowSize] points
    raises a behavioral anomaly of infinite severity. *)
Lemma DetectAnomalies_empty_baseline (d : Detector) (now : Z) (serviceName : string)
    (points : list DataPoint) :
  baselines d !! serviceName = Some [] →
  0 ≤ anomaly.WindowSize (anomaly.config d) < Z.of_nat (length points) →
  DetectAnomalies d now serviceName points
    = Some (detectStaticAnomalies d serviceName points ++
            [{| Type_ := "behavioral_anomaly";
                ServiceName := serviceName;
                Namespace := "";
                Severity := infinity;
                Description := go.Sprintf "Behavioral anomaly detected (distance: %.2f)" [infinity];
                Timestamp := now;
                Metrics := {[ "anomaly_distance" := infinity ]};
                Labels := ∅ |}], None).
Proof.
  intros Hb Hw. unfold DetectAnomalies. rewrite Hb.
  unfold detectMLAnomalies. rewrite decide_False by lia.
  destruct (ExtractFeatures_is_Some points (anomaly.WindowSize (anomaly.config d)))
    as [features Hf]; [lia|].
  rewrite Hf. simpl. apply ExtractFeatures_spec in Hf as (_ & Hlen & _).
  destruct (last_is_Some features) as [latest ->].
  { intros ->. simpl in Hlen. lia. }
  done.
Qed.

(** C1, on the code. With the default configuration ([WindowSize] 10,
    [K] 3), a service has a learned baseline of 3 clusters, against which
    its 11 most recent points raise no anomaly. [LearnBaseline] on these
    11 points passes the [WindowSize] check, extracts 1 feature vector
    (fewer than [K]), returns no error and replaces the baseline by the
    empty result; the next [DetectAnomalies] on the same points runs the
    ML path and emits a behavioral anomaly of infinite severity. *)
Theorem LearnBaseline_few_features_replaces_baseline :
  ∃ d1 baseline features d2 a,
    LearnBaseline defaultDetector "svc" history = Some (d1, None) ∧
    baselines d1 !! "svc" = Some baseline ∧ length baseline = 3%nat ∧
    DetectAnomalies d1 0 "svc" recent = Some ([], None) ∧
    anomaly.WindowSize (anomaly.config d1) ≤ Z.of_nat (length recent) ∧
    ExtractFeatures recent (anomaly.WindowSize (anomaly.config d1)) = Some features ∧
    Z.of_nat (length features) < K (ml.config (clusteringEngine d1)) ∧
    KMeans (clusteringEngine d1) features = Some [] ∧
    LearnBaseline d1 "svc" recent = Some (d2, None) ∧
    baselines d2 !! "svc" = Some [] ∧
    DetectAnomalies d2 0 "svc" recent = Some ([a], None) ∧
    Type_ a = "behavioral_anomaly" ∧ Severity a = infinity.
Proof.
  pose (d1 := match LearnBaseline defaultDetector "svc" history with
              | Some (d, _) => d
              | None => defaultDetector
              end).
  pose (baseline := default [] (baselines d1 !! "svc")).
  pose (features := default [] (ExtractFeatures recent (anomaly.WindowSize (anomaly.config d1)))).
  pose (d2 := match LearnBaseline d1 "svc" recent with
              | Some (d, _) => d
              | None => d1
              end).
  destruct (match DetectAnomalies d2 0 "svc" recent with
            | Some (a :: _, _) => Some a
            | _ => None
            end) as [a|] eqn:Ha; [|by vm_compute in Ha].
  exists d1, baseline, features, d2, a.
  vm_compute in Ha. injection Ha as <-.
  subst d1 baseline features d2.
  split; [by vm_compute|]. split; [by vm_compute|]. split; [by vm_compute|].
  split; [by vm_compute|]. split; [by vm_compute|]. split; [by vm_compute|].
  split; [by vm_compute|]. split; [by vm_compute|]. split; [by vm_compute|].
  split; [by vm_compute|]. split; [by vm_compute|]. split; by vm_compute.
Qed.



End detector.

(** ** Order of binary64 values

    Facts about [<?] and [<=?] on floats, read off the specification of the
    comparison on [spec_float]; NaN compares false with everything. *)

Section float_order.

Lemma SFcompare_trans (a b c : spec_float) (r1 r2 : comparison) :
  SFcompare a b = Some r1 → SFcompare b c = Some r2 →
  r1 ≠ Gt → r2 ≠ Gt →
  SFcompare a c = Some (match r1 with Eq => r2 | _ => Lt end).
Proof.
  destruct a as [sa|sa| |sa ma ea], b as [sb|sb| |sb mb eb], c as [sc|sc| |sc mc ec];
    simpl; try discriminate;
    repeat match goal with s : bool |- _ => destruct s end;
    simpl; intros [= <-] [= <-] H1 H2; try congruence;
    change (PosDef.Pos.compare_cont Eq) with Pos.compare in *;
    repeat match goal with
      | H : context [Z.compare ?x ?y] |- _ => destruct (Z.compare_spec x y)
      | |- context [Z.compare ?x ?y] => destruct (Z.compare_spec x y)
      end;
    try lia; try congruence; subst;
    repeat match goal with
      | H : context [Pos.compare ?x ?y] |- _ => destruct (Pos.compare_spec x y)
      | |- context [Pos.compare ?x ?y] => destruct (Pos.compare_spec x y)
      end;
    simpl in *; try lia; try congruence.
Qed.

Lemma SFcompare_refl (a : spec_float) : SFcompare a a = None ∨ SFcompare a a = Some Eq.
Proof.
  destruct a as [s|s| |s m e]; simpl; auto; right.
  - by destruct s.
  - destruct s; rewrite Z.compare_refl; change (PosDef.Pos.compare_cont Eq) with Pos.compare;
      by rewrite Pos.compare_refl.
Qed.

Lemma ltb_irrefl (x : float) : (x <? x)%float = false.
Proof.
  rewrite ltb_spec. unfold SFltb. by destruct (SFcompare_refl (Prim2SF x)) as [-> | ->].
Qed.

Lemma ltb_trans (x y z : float) :
  (x <? y)%float = true → (y <? z)%float = true → (x <? z)%float = true.
Proof.
  rewrite !ltb_spec. unfold SFltb.
  destruct (SFcompare (Prim2SF x) (Prim2SF y)) as [[]|] eqn:H1; try done.
  destruct (SFcompare (Prim2SF y) (Prim2SF z)) as [[]|] eqn:H2; try done.
  by rewrite (SFcompare_trans _ _ _ _ _ H1 H2).
Qed.

Lemma leb_ltb_trans (x y z : float) :
  (x <=? y)%float = true → (y <? z)%float = true → (x <? z)%float = true.
Proof.
  rewrite leb_spec, !ltb_spec. unfold SFleb, SFltb.
  destruct (SFcompare (Prim2SF x) (Prim2SF y)) as [[]|] eqn:H1; try done;
    destruct (SFcompare (Prim2SF y) (Prim2SF z)) as [[]|] eqn:H2; try done;
    by rewrite (SFcompare_trans _ _ _ _ _ H1 H2).
Qed.

Lemma leb_trans (x y z : float) :
  (x <=? y)%float = true → (y <=? z)%float = true → (x <=? z)%float = true.
Proof.
  rewrite !leb_spec. unfold SFleb.
  destruct (SFcompare (Prim2SF x) (Prim2SF y)) as [[]|] eqn:H1; try done;
    destruct (SFcompare (Prim2SF y) (Prim2SF z)) as [[]|] eqn:H2; try done;
    by rewrite (SFcompare_trans _ _ _ _ _ H1 H2).
Qed.

Lemma ltb_leb_trans (x y z : float) :
  (x <? y)%float = true → (y <=? z)%float = true → (x <? z)%float = true.
Proof.
  rewrite leb_spec, !ltb_spec. unfold SFleb, SFltb.
  destruct (SFcompare (Prim2SF x) (Prim2SF y)) as [[]|] eqn:H1; try done;
    destruct (SFcompare (Prim2SF y) (Prim2SF z)) as [[]|] eqn:H2; try done;
    by rewrite (SFcompare_trans _ _ _ _ _ H1 H2).
Qed.

Lemma ltb_asym (x y : float) : (x <? y)%float = true → (y <? x)%float = false.
Proof.
  intros Hxy. destruct (y <? x)%float eqn:Hyx; [|done].
  pose proof (ltb_trans _ _ _ Hxy Hyx) as Hxx. by rewrite ltb_irrefl in Hxx.
Qed.

Lemma ltb_not_leb (x y : float) : (x <? y)%float = true → (y <=? x)%float = false.
Proof.
  intros Hxy. destruct (y <=? x)%float eqn:Hyx; [|done].
  pose proof (leb_ltb_trans _ _ _ Hyx Hxy) as Hyy. by rewrite ltb_irrefl in Hyy.
Qed.

(** Whatever is above some value is at most [+Inf] (it is not NaN). *)
Lemma leb_infinity (x y : float) : (x <? y)%float = true → (y <=? infinity)%float = true.
Proof.
  rewrite ltb_spec, leb_spec. change (Prim2SF infinity) with (S754_infinity false).
  unfold SFltb, SFleb.
  destruct (Prim2SF x) as [sx|sx| |sx mx ex], (Prim2SF y) as [sy|sy| |sy my ey];
    simpl; try done; by destruct sy.
Qed.

Lemma eqb_zero_spec (x : float) :
  (x =? 0)%float = true → ∃ s, Prim2SF x = S754_zero s.
Proof.
  rewrite FloatAxioms.eqb_spec. change (Prim2SF 0) with (S754_zero false). unfold SFeqb.
  destruct (Prim2SF x) as [s|s| |s m e]; simpl; try done; [by eexists| |]; by destruct s.
Qed.

Lemma is_nan_spec (x : float) : Prim2SF x = S754_nan → is_nan x = true.
Proof. intros Hx. unfold is_nan. by rewrite FloatAxioms.eqb_spec, Hx. Qed.

Lemma is_infinity_spec (x : float) (s : bool) :
  Prim2SF x = S754_infinity s → is_infinity x = true.
Proof.
  intros Hx. unfold is_infinity. rewrite FloatAxioms.eqb_spec, abs_spec, Hx.
  by change (Prim2SF infinity) with (S754_infinity false).
Qed.

End float_order.

(** ** More on the time-series store *)

Section store_more.
Import timeseries.

Lemma Store_lookup_ne (s : Storage) (now : Z) (serviceName metric : string)
    (value : float) (labels : gmap string string) (k : string) :
  k ≠ key serviceName metric →
  series (Store s now serviceName metric value labels) !! k = series s !! k.
Proof.
  intros Hk. unfold Store; simpl. rewrite lookup_alter_ne by done.
  destruct (series s !! key serviceName metric); [done|]. by rewrite lookup_insert_ne.
Qed.

Lemma Store_lookup_eq (s : Storage) (now : Z) (serviceName metric : string)
    (value : float) (labels : gmap string string) :
  series (Store s now serviceName metric value labels) !! key serviceName metric
  = Some {| ServiceName := default serviceName
                             (ServiceName <$> series s !! key serviceName metric);
            Metric := default metric (Metric <$> series s !! key serviceName metric);
            Points := pointsAt s (key serviceName metric)
                      ++ [{| Timestamp := now; Value := value; Labels := labels |}] |}.
Proof.
  unfold Store, pointsAt; simpl. rewrite lookup_alter_eq.
  destruct (series s !! key serviceName metric) as [ts0|] eqn:Hs; simpl.
  - by rewrite Hs.
  - by rewrite lookup_insert_eq.
Qed.

(** [Store] appends exactly one sample to the series of its key, which it
    creates (named after the call) when missing; the series keeps its
    names, and every other series of the store is left as it was. *)
Theorem Store_appends_one (s : Storage) (now : Z) (serviceName metric : string)
    (value : float) (labels : gmap string string) :
  ∃ ts,
    GetSeries (Store s now serviceName metric value labels) serviceName metric = Some ts ∧
    Points ts = pointsAt s (key serviceName metric)
                ++ [{| Timestamp := now; Value := value; Labels := labels |}] ∧
    ServiceName ts = default serviceName (ServiceName <$> GetSeries s serviceName metric) ∧
    Metric ts = default metric (Metric <$> GetSeries s serviceName metric) ∧
    ∀ k, k ≠ key serviceName metric →
         series (Store s now serviceName metric value labels) !! k = series s !! k.
Proof.
  pose proof (Store_lookup_ne s now serviceName metric value labels) as Hframe.
  unfold GetSeries, pointsAt in *. rewrite Store_lookup_eq.
  eexists. split; [done|]. simpl. repeat split. exact Hframe.
Qed.

Lemma append_nil_l (s : string) : "" +:+ s = s.
Proof. reflexivity. Qed.

Lemma append_cons (a : Ascii.ascii) (s t : string) : String a s +:+ t = String a (s +:+ t).
Proof. reflexivity. Qed.

(** The composite key separates service and metric as long as service
    names hold no colon: two pairs with the same key are then the same
    pair. *)
Theorem key_injective (serviceName1 metric1 serviceName2 metric2 : string) :
  containsByte colon serviceName1 = false →
  containsByte colon serviceName2 = false →
  key serviceName1 metric1 = key serviceName2 metric2 →
  serviceName1 = serviceName2 ∧ metric1 = metric2.
Proof.
  unfold key. change ":"%string with (String colon ""). revert serviceName2.
  induction serviceName1 as [|a s1 IH]; intros [|b s2];
    repeat (rewrite append_nil_l || rewrite append_cons); cbn [containsByte].
  - intros _ _ [= ->]. done.
  - destruct (Ascii.eqb_spec b colon); [done|]. intros _ _ [= <- _]. done.
  - destruct (Ascii.eqb_spec a colon); [done|]. intros _ _ [= -> _]. done.
  - destruct (Ascii.eqb_spec a colon); [done|]. destruct (Ascii.eqb_spec b colon); [done|].
    intros H1 H2 [= -> Hk]. destruct (IH s2 H1 H2 Hk) as [-> ->]. done.
Qed.

Lemma key_injective_witness :
  containsByte colon "frontend" = false ∧
  key "frontend" "request_count" = "frontend:request_count" ∧
  ("frontend" = "frontend" ∧ "request_count" = "request_count").
Proof.
  split; [reflexivity|]. split; [reflexivity|].
  exact (key_injective "frontend" "request_count" "frontend" "request_count"
           eq_refl eq_refl eq_refl).
Defined.

(** With a colon in a service name two different pairs share one series. *)
Example key_collision :
  key "a:b" "c" = key "a" "b:c" ∧
  Value <$> pointsAt (Store NewStorage 1 "a" "b:c" 7%float ∅) (key "a:b" "c") = [7%float].
Proof. by vm_compute. Qed.

(** Reading the latest [n ≥ 1] samples right after a [Store] under the same
    key gives the latest [n - 1] samples of before, then the new sample. *)
Theorem GetLatestN_after_Store (s : Storage) (now : Z) (serviceName metric : string)
    (value : float) (labels : gmap string string) (n : Z) :
  1 ≤ n →
  GetLatestN (Store s now serviceName metric value labels) serviceName metric n
  = (λ before, before ++ [{| Timestamp := now; Value := value; Labels := labels |}])
      <$> GetLatestN s serviceName metric (n - 1).
Proof.
  intros Hn. rewrite !GetLatestN_pointsAt by lia. simpl.
  rewrite pointsAt_Store, decide_True by done. f_equal.
  unfold lastN. rewrite length_app. simpl.
  set (points := pointsAt s (key serviceName metric)).
  replace (length points + 1 - Z.to_nat n)%nat with (length points - Z.to_nat (n - 1))%nat by lia.
  rewrite drop_app_le by lia. done.
Qed.

Lemma GetLatestN_after_Store_witness :
  let s := Store (Store NewStorage 1 "a" "m" 1%float ∅) 2 "a" "m" 2%float ∅ in
  1 ≤ 2 ∧
  GetLatestN (Store s 3 "a" "m" 3%float ∅) "a" "m" 2
  = Some [ {| Timestamp := 2; Value := 2%float; Labels := ∅ |};
           {| Timestamp := 3; Value := 3%float; Labels := ∅ |} ].
Proof.
  intros s. split; [lia|].
  rewrite (GetLatestN_after_Store s 3 "a" "m" 3%float ∅ 2 ltac:(lia)). by vm_compute.
Defined.

(** A [Store] under one key changes no read under another key. *)
Theorem Store_frame (s : Storage) (now : Z) (serviceName metric : string)
    (value : float) (labels : gmap string string) (serviceName' metric' : string) :
  key serviceName' metric' ≠ key serviceName metric →
  let s' := Store s now serviceName metric value labels in
  GetSeries s' serviceName' metric' = GetSeries s serviceName' metric' ∧
  (∀ n, GetLatestN s' serviceName' metric' n = GetLatestN s serviceName' metric' n) ∧
  (∀ start end_, GetTimeRange s' serviceName' metric' start end_
                 = GetTimeRange s serviceName' metric' start end_).
Proof.
  intros Hk s'.
  assert (GetSeries s' serviceName' metric' = GetSeries s serviceName' metric') as Hget.
  { unfold GetSeries. by apply Store_lookup_ne. }
  split; [done|]. unfold GetLatestN, GetTimeRange. rewrite Hget. done.
Qed.

Lemma Store_frame_witness :
  let s := Store NewStorage 1 "a" "m" 1%float ∅ in
  key "b" "m" ≠ key "a" "m" ∧
  GetLatestN (Store s 2 "a" "m" 2%float ∅) "b" "m" 5 = Some [].
Proof.
  intros s.
  assert (key "b" "m" ≠ key "a" "m") as Hk by (by vm_compute).
  split; [exact Hk|].
  destruct (Store_frame s 2 "a" "m" 2%float ∅ "b" "m" Hk) as (_ & Hlatest & _).
  rewrite Hlatest. by vm_compute.
Defined.

Lemma sorted_fmap_filter {A} (f : A → Z) (P : A → Prop) `{!∀ x, Decision (P x)} (l : list A) :
  StronglySorted Z.le (f <$> l) → StronglySorted Z.le (f <$> filter P l).
Proof.
  induction l as [|x l IH]; [done|].
  rewrite fmap_cons, StronglySorted_cons, filter_cons. intros [Hx Hl].
  case_decide; [|by apply IH].
  rewrite fmap_cons, StronglySorted_cons. split; [|by apply IH].
  rewrite Forall_fmap in *. rewrite Forall_forall in *.
  intros y Hy. apply Hx. by eapply list_elem_of_filter.
Qed.

(** While the clock readings of successive [Store] calls do not decrease,
    every series of the store is ordered by timestamp. *)
Theorem series_sorted_by_time (calls : list StoreCall) (k : string) (ts : TimeSeries) :
  StronglySorted Z.le (call_now <$> calls) →
  series (StoreAll NewStorage calls) !! k = Some ts →
  StronglySorted Z.le (Timestamp <$> Points ts).
Proof.
  intros Hsorted Hts.
  pose proof (pointsAt_StoreAll calls NewStorage k) as Hp.
  unfold pointsAt at 1 in Hp. rewrite Hts in Hp. rewrite Hp.
  change (pointsAt NewStorage k) with (@nil DataPoint). simpl.
  unfold samplesOf. rewrite <- list_fmap_compose.
  by apply (sorted_fmap_filter call_now).
Qed.

Lemma series_sorted_by_time_witness :
  let calls := (λ t, {| call_now := t; call_serviceName := "a"; call_metric := "m";
                        call_value := 0%float; call_labels := ∅ |}) <$> [3; 3; 8] in
  ∃ ts, series (StoreAll NewStorage calls) !! "a:m" = Some ts ∧
        StronglySorted Z.le (Timestamp <$> Points ts).
Proof.
  intros calls.
  destruct (series (StoreAll NewStorage calls) !! "a:m") as [ts|] eqn:Hts;
    [|by vm_compute in Hts].
  exists ts. split; [done|].
  apply (series_sorted_by_time calls "a:m" ts); [|exact Hts].
  unfold calls. simpl. repeat constructor; lia.
Defined.

(** An interval whose end is not after its start selects nothing. *)
Theorem GetTimeRange_empty_interval (s : Storage) (serviceName metric : string)
    (start end_ : Z) :
  end_ ≤ start → GetTimeRange s serviceName metric start end_ = [].
Proof.
  intros Hle. unfold GetTimeRange. destruct (GetSeries s serviceName metric) as [ts|]; [|done].
  rewrite GetTimeRange_loop. simpl.
  induction (Points ts) as [|p points IH]; [done|].
  rewrite filter_cons. case_decide; [lia|done].
Qed.

Lemma GetTimeRange_empty_interval_witness :
  5 ≤ 5 ∧ GetTimeRange (Store NewStorage 5 "a" "m" 1%float ∅) "a" "m" 5 5 = [].
Proof.
  split; [lia|]. apply GetTimeRange_empty_interval. lia.
Defined.

End store_more.

(** ** More on the feature extractor *)

Section features_more.
Import timeseries ml anomaly.

(** For a window size [w ≥ 0], [ExtractFeatures] returns one vector per
    point from index [w] on: vector [j] is computed over the [w] points
    [points[j], ..., points[j+w-1]] and is tagged with the next point,
    [points[j+w]], which its window does not include. *)
Theorem ExtractFeatures_windows (points : list DataPoint) (windowSize : Z) :
  0 ≤ windowSize →
  ∃ features,
    ExtractFeatures points windowSize = Some features ∧
    length features = (length points - Z.to_nat windowSize)%nat ∧
    ∀ j p, points !! (j + Z.to_nat windowSize)%nat = Some p →
      features !! j
      = Some (let window := take (Z.to_nat windowSize) (drop j points) in
              {| Features := [calculateMean window; calculateStdDev window;
                              calculateTrend window; calculateVolatility window];
                 Label := "";
                 Original := Some p |}).
Proof.
  intros Hw.
  destruct (ExtractFeatures_is_Some points windowSize Hw) as [features Hf].
  exists features. split; [done|].
  pose proof (ExtractFeatures_spec _ _ _ Hf) as (_ & Hlen & _).
  split; [lia|]. intros j p Hp.
  pose proof (lookup_lt_Some _ _ _ Hp) as Hj.
  unfold ExtractFeatures in Hf. apply mapM_Some_1 in Hf.
  destruct (Forall2_lookup_l _ _ _ j (windowSize + Z.of_nat j) Hf) as (f & Hfj & Hfeat).
  { apply lookup_seqZ. lia. }
  rewrite Hfj. f_equal. simpl in Hfeat.
  unfold go.slice, go.index in Hfeat. rewrite !decide_True in Hfeat by lia.
  replace (Z.to_nat (windowSize + Z.of_nat j)) with (j + Z.to_nat windowSize)%nat in Hfeat by lia.
  rewrite Hp in Hfeat. simpl in Hfeat.
  replace (Z.to_nat (windowSize + Z.of_nat j - windowSize)) with j in Hfeat by lia.
  replace (j + Z.to_nat windowSize - j)%nat with (Z.to_nat windowSize) in Hfeat by lia.
  by injection Hfeat as <-.
Qed.

Lemma ExtractFeatures_windows_witness :
  let points := sample <$> [10; 12; 11; 13; 14; 15]%float in
  ∃ features,
    ExtractFeatures points 3 = Some features ∧
    length features = 3%nat ∧
    features !! 1%nat
    = Some {| Features := let window := sample <$> [12; 11; 13]%float in
                          [calculateMean window; calculateStdDev window;
                           calculateTrend window; calculateVolatility window];
              Label := "";
              Original := Some (sample 14) |}.
Proof.
  intros points.
  destruct (ExtractFeatures_windows points 3 ltac:(lia)) as (features & Hf & Hlen & Hwin).
  exists features. split; [exact Hf|]. split; [exact Hlen|].
  exact (Hwin 1%nat (sample 14) eq_refl).
Defined.

(** A negative window size makes [ExtractFeatures] panic on every input,
    the empty one included, and with it every [LearnBaseline] call of a
    detector configured so. *)
Theorem negative_window_panics (d : Detector) (serviceName : string)
    (points : list DataPoint) (windowSize : Z) :
  windowSize < 0 →
  ExtractFeatures points windowSize = None ∧
  (WindowSize (anomaly.config d) = windowSize → LearnBaseline d serviceName points = None).
Proof.
  intros Hneg.
  assert (ExtractFeatures points windowSize = None) as Hnone.
  { destruct (ExtractFeatures points windowSize) as [features|] eqn:Hf; [|done].
    apply ExtractFeatures_spec in Hf as (Hw & _). lia. }
  split; [done|]. intros Hcfg. unfold LearnBaseline. rewrite Hcfg.
  rewrite decide_False by lia. by rewrite Hnone.
Qed.

Lemma negative_window_panics_witness :
  -1 < 0 ∧ ExtractFeatures [] (-1) = None.
Proof.
  split; [lia|].
  exact (proj1 (negative_window_panics defaultDetector "svc" [] (-1) ltac:(lia))).
Defined.

(** [calculateTrend] divides by the first value of the window without a
    guard: when that value is 0 (or -0) and the window has at least 2
    points, the trend is never a finite number, it is NaN or an infinity. *)
Theorem calculateTrend_zero_first (first : DataPoint) (rest : list DataPoint) :
  rest ≠ [] →
  (Value first =? 0)%float = true →
  is_nan (calculateTrend (first :: rest)) = true ∨
  is_infinity (calculateTrend (first :: rest)) = true.
Proof.
  intros Hrest Hzero. destruct rest as [|p1 rest]; [done|].
  unfold calculateTrend. set (latest := Value (List.last _ _)).
  destruct (eqb_zero_spec _ Hzero) as [s Hs].
  pose proof (div_spec (latest - Value first) (Value first)) as Hdiv.
  rewrite sub_spec, Hs in Hdiv. unfold SF64div, SF64sub in Hdiv.
  destruct (Prim2SF latest) as [sl|sl| |sl ml el]; simpl in Hdiv.
  - destruct sl, s; simpl in Hdiv; left; by apply is_nan_spec.
  - right. by eapply is_infinity_spec.
  - left. by apply is_nan_spec.
  - right. by eapply is_infinity_spec.
Qed.

Lemma calculateTrend_zero_first_witness :
  [sample 5] ≠ [] ∧ (Value (sample 0) =? 0)%float = true ∧
  (is_nan (calculateTrend [sample 0; sample 5]) = true ∨
   is_infinity (calculateTrend [sample 0; sample 5]) = true).
Proof.
  assert ([sample 5] ≠ []) as Hne by done.
  assert ((Value (sample 0) =? 0)%float = true) as Hz by reflexivity.
  split; [exact Hne|]. split; [exact Hz|].
  exact (calculateTrend_zero_first (sample 0) [sample 5] Hne Hz).
Defined.

(** The two outcomes: a window from 0 to 5 has trend [+Inf], a window of
    zeros has trend NaN. *)
Example calculateTrend_zero_first_values :
  calculateTrend [sample 0; sample 5] = infinity ∧
  calculateTrend [sample 0; sample 0] = nan.
Proof. split; by vm_compute. Qed.

End features_more.

(** ** More on the K-means engine *)

Section kmeans_more.
Import ml.

(** *** Assignment goes to the first nearest centroid *)

(** The scan of [assignPointsToClusters] from index [i], entered with the
    minimum [minDist] found so far at index [clusterIdx]: what it returns
    and the minimum [m] it ends with. *)
Lemma nearestCluster_scan (features : list float) (clusters : list Cluster) :
  ∀ i minDist clusterIdx r,
  (clusterIdx ≤ i)%nat →
  nearestCluster features clusters i minDist clusterIdx = Some r →
  ∃ m,
    ((r = clusterIdx ∧ m = minDist) ∨
     ((i ≤ r)%nat ∧ (m <? minDist)%float = true ∧
      ∃ c, clusters !! (r - i)%nat = Some c ∧ euclideanDistance features (Centroid c) = Some m)) ∧
    ∀ j cj, clusters !! j = Some cj →
      ∃ dj, euclideanDistance features (Centroid cj) = Some dj ∧
            (dj <? m)%float = false ∧
            ((i + j < r)%nat → (dj <=? m)%float = false).
Proof.
  induction clusters as [|c rest IH]; intros i minDist clusterIdx r Hidx; simpl.
  - intros [= <-]. exists minDist. split; [by left|]. intros j cj Hj. done.
  - destruct (euclideanDistance features (Centroid c)) as [d|] eqn:Hd; simpl; [|done].
    destruct (d <? minDist)%float eqn:Hlt; intros Hr.
    + destruct (IH (S i) d i r ltac:(lia) Hr) as (m & HA & HB).
      exists m. split.
      * right. destruct HA as [[-> ->]|(Hir & Hm & c' & Hc' & Hd')].
        -- split; [lia|]. split; [done|]. exists c.
           replace (i - i)%nat with 0%nat by lia. done.
        -- split; [lia|]. split; [by eapply ltb_trans|]. exists c'.
           replace (r - i)%nat with (S (r - S i)) by lia. done.
      * intros [|j] cj Hj; simpl in Hj.
        -- injection Hj as <-. exists d. split; [done|].
           destruct HA as [[-> ->]|(Hir & Hm & _)].
           ++ split; [apply ltb_irrefl|]. lia.
           ++ split; [by apply ltb_asym|]. intros _. by apply ltb_not_leb.
        -- destruct (HB j cj Hj) as (dj & Hdj & H1 & H2).
           exists dj. split; [done|]. split; [done|]. intros Hlt'. apply H2. lia.
    + destruct (IH (S i) minDist clusterIdx r ltac:(lia) Hr) as (m & HA & HB).
      exists m. split.
      * destruct HA as [[-> ->]|(Hir & Hm & c' & Hc' & Hd')]; [by left|right].
        split; [lia|]. split; [done|]. exists c'.
        replace (r - i)%nat with (S (r - S i)) by lia. done.
      * intros [|j] cj Hj; simpl in Hj.
        -- injection Hj as <-. exists d. split; [done|].
           destruct HA as [[-> ->]|(Hir & Hm & _)].
           ++ split; [done|]. lia.
           ++ split.
              ** destruct (d <? m)%float eqn:Hdm; [|done].
                 by rewrite (ltb_trans _ _ _ Hdm Hm) in Hlt.
              ** intros _. destruct (d <=? m)%float eqn:Hdm; [|done].
                 by rewrite (leb_ltb_trans _ _ _ Hdm Hm) in Hlt.
        -- destruct (HB j cj Hj) as (dj & Hdj & H1 & H2).
           exists dj. split; [done|]. split; [done|]. intros Hlt'. apply H2. lia.
Qed.

(** [assignPoint] appends the point to the cluster of a nearest centroid,
    the first one in cluster order: no centroid is strictly nearer to the
    point than the chosen one, and no centroid before it is as near. A
    distance that is NaN is never nearer. *)
Theorem assignPoint_first_nearest (clusters : list Cluster) (point : ClusterPoint) :
  clusters ≠ [] →
  Forall (λ c, (length (Features point) ≤ length (Centroid c))%nat) clusters →
  ∃ idx c d,
    clusters !! idx = Some c ∧
    euclideanDistance (Features point) (Centroid c) = Some d ∧
    assignPoint clusters point
      = Some (<[idx := {| Centroid := Centroid c; Points := Points c ++ [point] |}]> clusters) ∧
    ∀ j cj, clusters !! j = Some cj →
      ∃ dj, euclideanDistance (Features point) (Centroid cj) = Some dj ∧
            (dj <? d)%float = false ∧
            ((j < idx)%nat → (dj <=? d)%float = false).
Proof.
  intros Hne Hdim. unfold assignPoint.
  destruct (nearestCluster_is_Some (Features point) clusters 0 infinity 0 Hdim) as [idx Hidx].
  rewrite Hidx. simpl.
  destruct (nearestCluster_scan _ _ _ _ _ _ (Nat.le_refl 0) Hidx) as (m & HA & HB).
  destruct HA as [[-> ->]|(_ & Hm & c & Hc & Hd)].
  - destruct clusters as [|c0 rest]; [done|]. simpl.
    destruct (HB 0%nat c0 eq_refl) as (d0 & Hd0 & H0 & _).
    exists 0%nat, c0, d0. repeat split; [done|].
    intros j cj Hj. destruct (HB j cj Hj) as (dj & Hdj & Hj1 & _).
    exists dj. split; [done|]. split; [|lia].
    destruct (dj <? d0)%float eqn:Hlt; [|done].
    pose proof (leb_infinity _ _ Hlt) as Hinf.
    by rewrite (ltb_leb_trans _ _ _ Hlt Hinf) in Hj1.
  - rewrite Nat.sub_0_r in Hc. rewrite Hc. simpl.
    exists idx, c, m. repeat split; [done|done|].
    intros j cj Hj. destruct (HB j cj Hj) as (dj & Hdj & Hj1 & Hj2).
    exists dj. by repeat split.
Qed.

Lemma assignPoint_first_nearest_witness :
  let clusters := [ {| Centroid := [4]%float; Points := [] |};
                    {| Centroid := [1]%float; Points := [] |};
                    {| Centroid := [3]%float; Points := [] |} ] in
  let point := {| Features := [2]%float; Label := ""; Original := None |} in
  clusters ≠ [] ∧
  ∃ idx c d,
    clusters !! idx = Some c ∧
    euclideanDistance (Features point) (Centroid c) = Some d ∧
    assignPoint clusters point
      = Some (<[idx := {| Centroid := Centroid c; Points := Points c ++ [point] |}]> clusters).
Proof.
  intros clusters point.
  assert (clusters ≠ []) as Hne by done.
  split; [exact Hne|].
  destruct (assignPoint_first_nearest clusters point Hne) as (idx & c & d & Hc & Hd & Ha & _).
  { unfold clusters, point. repeat constructor. }
  by exists idx, c, d.
Defined.

(** The centroids at distance 1 on both sides of the point tie: the first
    of them in cluster order wins. *)
Example assignPoint_tie :
  let clusters := [ {| Centroid := [4]%float; Points := [] |};
                    {| Centroid := [1]%float; Points := [] |};
                    {| Centroid := [3]%float; Points := [] |} ] in
  let point := {| Features := [2]%float; Label := ""; Original := None |} in
  ∃ clusters',
    assignPoint clusters point = Some clusters' ∧
    (λ c : Cluster, length (Points c)) <$> clusters' = [0; 1; 0]%nat.
Proof. eexists. split; by vm_compute. Qed.

(** *** Clusters keep the order of the input *)

Lemma assignPoint_sublist (clusters clusters' : list Cluster) (point : ClusterPoint)
    (processed : list ClusterPoint) :
  assignPoint clusters point = Some clusters' →
  Forall (λ c, Points c `sublist_of` processed) clusters →
  Forall (λ c, Points c `sublist_of` processed ++ [point]) clusters'.
Proof.
  unfold assignPoint.
  destruct (nearestCluster _ _ _ _ _) as [idx|]; simpl; [|done].
  destruct (clusters !! idx) as [c|] eqn:Hc; simpl; [|done].
  intros [= <-] Hsub. apply Forall_insert.
  - eapply Forall_impl; [exact Hsub|]. simpl. intros c' Hc'. by apply sublist_inserts_r.
  - simpl. apply sublist_app; [|done]. by eapply (Forall_lookup_1 _ _ _ _ Hsub).
Qed.

Lemma assign_loop_sublist (points : list ClusterPoint) : ∀ processed clusters clusters',
  go.foldM assignPoint clusters points = Some clusters' →
  Forall (λ c, Points c `sublist_of` processed) clusters →
  Forall (λ c, Points c `sublist_of` processed ++ points) clusters'.
Proof.
  induction points as [|p points IH]; intros processed clusters clusters'; simpl.
  - intros [= <-]. by rewrite app_nil_r.
  - destruct (assignPoint clusters p) as [clusters1|] eqn:H1; simpl; [|done].
    intros Hrest Hsub. rewrite cons_middle, app_assoc.
    eapply IH; [exact Hrest|]. by eapply assignPoint_sublist.
Qed.

Lemma updateCentroids_points (clusters clusters' : list Cluster) :
  updateCentroids clusters = Some clusters' → Points <$> clusters' = Points <$> clusters.
Proof.
  unfold updateCentroids. intros H. apply mapM_Some_1 in H.
  induction H as [|c c' clusters clusters' Hc _ IH]; [done|].
  apply updateCentroid_spec in Hc as [HP _]. rewrite !fmap_cons. by rewrite HP, IH.
Qed.

Lemma iterate_sublist (ce : ClusteringEngine) (points : list ClusterPoint) :
  ∀ iters clusters clusters',
  iterate ce points iters clusters = Some clusters' →
  Forall (λ c, Points c `sublist_of` points) clusters →
  Forall (λ c, Points c `sublist_of` points) clusters'.
Proof.
  induction iters as [|iters IH]; intros clusters clusters'; simpl.
  - by intros [= <-].
  - destruct (assignPointsToClusters points clusters) as [clusters1|] eqn:H1; simpl; [|done].
    destruct (updateCentroids clusters1) as [clusters2|] eqn:H2; simpl; [|done].
    destruct (hasConverged ce (copyCentroids clusters) clusters2) as [converged|]; simpl; [|done].
    intros Hres _.
    assert (Forall (λ c, Points c `sublist_of` points) clusters2) as Hsub.
    { apply (Forall_fmap Points (λ ps, ps `sublist_of` points)).
      rewrite (updateCentroids_points _ _ H2).
      apply (Forall_fmap Points (λ ps, ps `sublist_of` points)).
      unfold assignPointsToClusters in H1.
      apply (assign_loop_sublist points [] _ _ H1).
      apply Forall_fmap, Forall_true. intros c. simpl. apply sublist_nil_l. }
    destruct converged; [by injection Hres as <-|]. by eapply IH.
Qed.

(** Every cluster [KMeans] returns lists its points in the order of the
    input: its assigned points are a subsequence of the input sequence. *)
Theorem KMeans_keeps_order (ce : ClusteringEngine) (points : list ClusterPoint)
    (clusters : list Cluster) :
  KMeans ce points = Some clusters →
  Forall (λ c, Points c `sublist_of` points) clusters.
Proof.
  unfold KMeans. case_decide; [by intros [= <-]|].
  destruct (initializeClusters ce points) as [seeds|] eqn:Hs; simpl; [|done].
  intros Hit. eapply iterate_sublist; [exact Hit|]. clear Hit.
  unfold initializeClusters in Hs. case_decide; [done|]. apply mapM_Some_1 in Hs.
  induction Hs as [|i c idxs cs Hc _ IH]; constructor; [|done].
  destruct (go.index points _); simpl in Hc; [|done]. injection Hc as <-.
  apply sublist_nil_l.
Qed.

Lemma KMeans_keeps_order_witness :
  let ce := NewClusteringEngine {| K := 2; MaxIter := 10; Tolerance := 0.1; FeatureNames := [] |} in
  let points := (λ f, {| Features := f; Label := ""; Original := None |}) <$>
                [[10]; [1]; [11]; [2]]%float in
  ∃ clusters,
    KMeans ce points = Some clusters ∧
    Forall (λ c, Points c `sublist_of` points) clusters ∧
    (λ c : Cluster, Features <$> Points c) <$> clusters = [ [[1]; [2]]; [[10]; [11]] ]%float.
Proof.
  intros ce points.
  destruct (KMeans ce points) as [clusters|] eqn:Hk; [|by vm_compute in Hk].
  exists clusters. split; [done|]. split; [exact (KMeans_keeps_order ce points clusters Hk)|].
  vm_compute in Hk. by injection Hk as <-.
Defined.

(** *** A cluster count that is not positive *)

(** [KMeans] does not validate [K]. A negative [K] panics on every input
    (in [make]); [K = 0] panics as soon as an iteration meets a point
    (there is no cluster to index), and otherwise returns no cluster. *)
Theorem KMeans_nonpositive_K (ce : ClusteringEngine) (points : list ClusterPoint) :
  (K (config ce) < 0 → KMeans ce points = None) ∧
  (K (config ce) = 0 → 1 ≤ MaxIter (config ce) → points ≠ [] → KMeans ce points = None) ∧
  (K (config ce) = 0 → MaxIter (config ce) ≤ 0 ∨ points = [] → KMeans ce points = Some []).
Proof.
  unfold KMeans, initializeClusters. repeat split.
  - intros HK. rewrite decide_False by lia. by rewrite decide_True.
  - intros HK HM Hne. rewrite HK. simpl.
    destruct (Z.to_nat (MaxIter (config ce))) as [|iters] eqn:Hi; [lia|].
    destruct points as [|p points]; [done|]. done.
  - intros HK Hcase. rewrite HK. rewrite decide_False by lia. simpl.
    destruct Hcase as [HM| ->].
    + by replace (Z.to_nat (MaxIter (config ce))) with 0%nat by lia.
    + by destruct (Z.to_nat (MaxIter (config ce))).
Qed.

Lemma KMeans_nonpositive_K_witness :
  let ce0 := NewClusteringEngine {| K := 0; MaxIter := 100; Tolerance := 0.01; FeatureNames := [] |} in
  let ce1 := NewClusteringEngine {| K := -1; MaxIter := 100; Tolerance := 0.01; FeatureNames := [] |} in
  let points := [ {| Features := [1]%float; Label := ""; Original := None |} ] in
  KMeans ce1 points = None ∧ KMeans ce0 points = None ∧ KMeans ce0 [] = Some [].
Proof.
  intros ce0 ce1 points.
  destruct (KMeans_nonpositive_K ce1 points) as (Hneg & _ & _).
  destruct (KMeans_nonpositive_K ce0 points) as (_ & Hzero & _).
  destruct (KMeans_nonpositive_K ce0 []) as (_ & _ & Hnil).
  split; [apply Hneg; simpl; lia|].
  split; [apply Hzero; [done|simpl; lia|done]|].
  apply Hnil; [done|by right].
Defined.

(** *** Returned centroids are the means of the returned points *)

Lemma sum_column_value (j : nat) (points : list ClusterPoint) : ∀ sum total,
  go.foldM (λ sum point, x ← Features point !! j; Some (sum + x)%float) sum points = Some total →
  total = fold_left (λ s x, (s + x)%float)
                    ((λ p, default 0%float (Features p !! j)) <$> points) sum.
Proof.
  induction points as [|p points IH]; intros sum total; simpl.
  - by intros [= <-].
  - destruct (Features p !! j) as [x|]; simpl; [|done]. apply IH.
Qed.

Lemma updateCentroid_mean (cluster cluster' : Cluster) :
  updateCentroid cluster = Some cluster' →
  Points cluster' ≠ [] →
  Centroid cluster' = meanOfPoints (length (Centroid cluster')) (Points cluster').
Proof.
  unfold updateCentroid. case_decide as Hempty.
  - intros [= <-] Hne. by destruct (Points cluster).
  - destruct (mapM _ _) as [centroid|] eqn:Hm; simpl; [|done].
    intros [= <-] _. simpl.
    pose proof (length_mapM _ _ _ Hm) as Hlen. rewrite length_seq in Hlen.
    rewrite <- Hlen. unfold meanOfPoints.
    apply mapM_Some_1 in Hm.
    generalize dependent (seq 0 (length (Centroid cluster))). clear Hlen.
    intros js Hm. induction Hm as [|j x js centroid Hx _ IH]; [done|].
    rewrite fmap_cons. f_equal; [|done]. simpl in Hx.
    destruct (go.foldM _ _ _) as [total|] eqn:Hsum; simpl in Hx; [|done].
    injection Hx as <-. apply sum_column_value in Hsum. by rewrite Hsum.
Qed.

Lemma updateCentroids_mean (clusters clusters' : list Cluster) :
  updateCentroids clusters = Some clusters' →
  Forall (λ c, Points c ≠ [] → Centroid c = meanOfPoints (length (Centroid c)) (Points c))
         clusters'.
Proof.
  unfold updateCentroids. intros H. apply mapM_Some_1 in H.
  induction H as [|c c' clusters clusters' Hc _ IH]; constructor; [|done].
  by apply (updateCentroid_mean c).
Qed.

(** The clusters the loop returns after at least one pass come out of
    [updateCentroids]. *)
Lemma iterate_updated (ce : ClusteringEngine) (points : list ClusterPoint) :
  ∀ iters clusters clusters',
  iterate ce points (S iters) clusters = Some clusters' →
  ∃ assignedTo, updateCentroids assignedTo = Some clusters'.
Proof.
  induction iters as [|iters IH]; intros clusters clusters' Hit;
    cbn [iterate] in Hit;
    destruct (assignPointsToClusters points clusters) as [clusters1|]; simpl in Hit; try done;
    destruct (updateCentroids clusters1) as [clusters2|] eqn:H2; simpl in Hit; try done;
    destruct (hasConverged ce (copyCentroids clusters) clusters2) as [[]|]; simpl in Hit; try done.
  - injection Hit as <-. by exists clusters1.
  - injection Hit as <-. by exists clusters1.
  - injection Hit as <-. by exists clusters1.
  - by apply (IH clusters2).
Qed.

(** After at least one iteration, the centroid of every returned cluster
    that has a point is the per-dimension mean of the points returned with
    it (each coordinate summed in cluster order, then divided by the
    number of points). *)
Theorem KMeans_centroid_is_mean (ce : ClusteringEngine) (points : list ClusterPoint)
    (clusters : list Cluster) :
  1 ≤ MaxIter (config ce) →
  KMeans ce points = Some clusters →
  Forall (λ c, Points c ≠ [] → Centroid c = meanOfPoints (length (Centroid c)) (Points c))
         clusters.
Proof.
  intros HM. unfold KMeans. case_decide; [by intros [= <-]|].
  destruct (initializeClusters ce points) as [seeds|]; simpl; [|done].
  destruct (Z.to_nat (MaxIter (config ce))) as [|iters] eqn:Hi; [lia|].
  intros Hit. apply iterate_updated in Hit as [assignedTo Hup].
  by eapply updateCentroids_mean.
Qed.

Lemma KMeans_centroid_is_mean_witness :
  let ce := NewClusteringEngine {| K := 2; MaxIter := 10; Tolerance := 0.1; FeatureNames := [] |} in
  let points := (λ f, {| Features := f; Label := ""; Original := None |}) <$>
                [[10; 0]; [1; 2]; [11; 0]; [2; 4]]%float in
  1 ≤ MaxIter (config ce) ∧
  ∃ clusters,
    KMeans ce points = Some clusters ∧
    Forall (λ c, Points c ≠ [] → Centroid c = meanOfPoints (length (Centroid c)) (Points c))
           clusters ∧
    Centroid <$> clusters = [[1.5; 3]; [10.5; 0]]%float.
Proof.
  intros ce points.
  assert (1 ≤ MaxIter (config ce)) as HM by (simpl; lia).
  split; [exact HM|].
  destruct (KMeans ce points) as [clusters|] eqn:Hk; [|by vm_compute in Hk].
  exists clusters. split; [done|].
  split; [exact (KMeans_centroid_is_mean ce points clusters HM Hk)|].
  vm_compute in Hk. by injection Hk as <-.
Defined.

(** *** The convergence test *)

Lemma hasConvergedFrom_spec (ce : ClusteringEngine) (oldCentroids : list (list float))
    (clusters : list Cluster) : ∀ i,
  Forall2 (λ old c, (length old ≤ length (Centroid c))%nat) (drop i oldCentroids) clusters →
  ∃ converged,
    hasConvergedFrom ce oldCentroids i clusters = Some converged ∧
    (converged = false ↔
     ∃ j old c d, oldCentroids !! (i + j)%nat = Some old ∧ clusters !! j = Some c ∧
                  euclideanDistance old (Centroid c) = Some d ∧
                  (Tolerance (config ce) <? d)%float = true).
Proof.
  induction clusters as [|c clusters IH]; intros i Hdim; simpl.
  - exists true. split; [done|]. split; [done|]. by intros (j & old & c & d & _ & Hc & _).
  - apply Forall2_cons_inv_r in Hdim as (old & rest & Hlen & Hrest & Hdrop).
    assert (oldCentroids !! i = Some old) as Hold.
    { rewrite <- (Nat.add_0_r i), <- lookup_drop, Hdrop. done. }
    assert (drop (S i) oldCentroids = rest) as Hdrop'.
    { replace (S i) with (i + 1)%nat by lia. rewrite <- drop_drop, Hdrop. done. }
    rewrite Hold. simpl.
    destruct (euclideanDistance_is_Some old (Centroid c) Hlen) as [d Hd]. rewrite Hd. simpl.
    destruct (Tolerance (config ce) <? d)%float eqn:Hmove.
    + exists false. split; [done|]. split; [|done]. intros _.
      exists 0%nat, old, c, d. by rewrite Nat.add_0_r.
    + destruct (IH (S i)) as (converged & Hconv & Hiff); [by rewrite Hdrop'|].
      exists converged. split; [done|]. rewrite Hiff. split.
      * intros (j & old' & c' & d' & Ho & Hc & Hd' & Hm).
        exists (S j), old', c', d'. by rewrite <- Nat.add_succ_comm.
      * intros ([|j] & old' & c' & d' & Ho & Hc & Hd' & Hm).
        -- rewrite Nat.add_0_r in Ho. simpl in Hc. congruence.
        -- exists j, old', c', d'. by rewrite Nat.add_succ_comm.
Qed.

(** On centroids of matching dimensions [hasConverged] returns, and it
    answers false exactly when some cluster's centroid lies farther than
    [Tolerance] from its old position; a displacement that is NaN does not
    count as a move. *)
Theorem hasConverged_spec (ce : ClusteringEngine) (oldCentroids : list (list float))
    (clusters : list Cluster) :
  Forall2 (λ old c, (length old ≤ length (Centroid c))%nat) oldCentroids clusters →
  ∃ converged,
    hasConverged ce oldCentroids clusters = Some converged ∧
    (converged = false ↔
     ∃ j old c d, oldCentroids !! j = Some old ∧ clusters !! j = Some c ∧
                  euclideanDistance old (Centroid c) = Some d ∧
                  (Tolerance (config ce) <? d)%float = true).
Proof. intros Hdim. by apply (hasConvergedFrom_spec ce oldCentroids clusters 0). Qed.

Lemma hasConverged_spec_witness :
  let ce := NewClusteringEngine {| K := 2; MaxIter := 10; Tolerance := 0.1; FeatureNames := [] |} in
  let oldCentroids := [[1; 1]; [2; 2]]%float in
  let clusters := [ {| Centroid := [1.05; 1.05]%float; Points := [] |};
                    {| Centroid := [2.5; 2]%float; Points := [] |} ] in
  ∃ converged,
    hasConverged ce oldCentroids clusters = Some converged ∧ converged = false.
Proof.
  intros ce oldCentroids clusters.
  destruct (hasConverged_spec ce oldCentroids clusters) as (converged & Hc & Hiff).
  { unfold oldCentroids, clusters. repeat constructor. }
  exists converged. split; [exact Hc|]. apply Hiff.
  exists 1%nat, [2; 2]%float, {| Centroid := [2.5; 2]%float; Points := [] |}, 0.5%float.
  by vm_compute.
Defined.

(** A centroid that holds a NaN is at NaN distance from its old position,
    which no tolerance is below: the test reports convergence. *)
Example hasConverged_nan :
  let ce := NewClusteringEngine {| K := 1; MaxIter := 10; Tolerance := 0.1; FeatureNames := [] |} in
  hasConverged ce [[1]%float] [ {| Centroid := [nan]; Points := [] |} ] = Some true.
Proof. by vm_compute. Qed.

End kmeans_more.

(** ** More on the detector *)

Section detector_more.
Import timeseries ml anomaly.

(** *** Learning *)

(** Whatever [LearnBaseline] returns, it leaves the configuration, the
    engine and the baselines of the other services as they were. It
    returns an error exactly when there are fewer points than
    [WindowSize], and then changes nothing; without an error the service
    has a baseline afterwards. *)
Theorem LearnBaseline_frame (d d' : Detector) (serviceName : string)
    (points : list DataPoint) (err : go.error) :
  LearnBaseline d serviceName points = Some (d', err) →
  anomaly.config d' = anomaly.config d ∧
  clusteringEngine d' = clusteringEngine d ∧
  (∀ other, other ≠ serviceName → baselines d' !! other = baselines d !! other) ∧
  (err ≠ None ↔ Z.of_nat (length points) < WindowSize (anomaly.config d)) ∧
  (err ≠ None → d' = d) ∧
  (err = None → is_Some (baselines d' !! serviceName)).
Proof.
  unfold LearnBaseline. case_decide as Hlen.
  - intros [= <- <-]. by repeat split.
  - destruct (ExtractFeatures points _) as [features|]; simpl; [|done].
    destruct (KMeans _ features) as [clusters|]; simpl; [|done].
    intros [= <- <-]. simpl. split; [done|]. split; [done|].
    split; [intros other Hother; by rewrite lookup_insert_ne|].
    split; [split; [by intros []|done]|].
    split; [by intros []|]. intros _. rewrite lookup_insert_eq. by eexists.
Qed.

Lemma LearnBaseline_frame_witness :
  ∃ d' err,
    LearnBaseline defaultDetector "svc" (take 5 history) = Some (d', err) ∧
    err ≠ None ∧ d' = defaultDetector.
Proof.
  destruct (LearnBaseline defaultDetector "svc" (take 5 history)) as [[d' err]|] eqn:Hl;
    [|by vm_compute in Hl].
  destruct (LearnBaseline_frame _ _ _ _ _ Hl) as (_ & _ & _ & Herr & Hsame & _).
  assert (err ≠ None) as Hne by (apply Herr; by vm_compute).
  exists d', err. split; [done|]. split; [exact Hne|]. by apply Hsame.
Defined.

Lemma KMeans_returns_partition (ce : ClusteringEngine) (d : nat) (points : list ClusterPoint) :
  1 ≤ K (ml.config ce) →
  1 ≤ MaxIter (ml.config ce) →
  K (ml.config ce) ≤ Z.of_nat (length points) →
  fits_int (Z.of_nat (length points) * K (ml.config ce)) →
  features_dim d points →
  ∃ clusters,
    KMeans ce points = Some clusters ∧
    length clusters = Z.to_nat (K (ml.config ce)) ∧
    assigned clusters ≡ₚ points ∧
    centroids_dim d clusters.
Proof.
  intros HK HM Hlen Hfit Hp. unfold KMeans. rewrite decide_False by lia.
  destruct (initializeClusters_seeds ce points HK Hlen Hfit) as (seeds & Hs & Hl & _).
  rewrite Hs. simpl.
  destruct (initializeClusters_dims ce d points seeds Hs Hp) as [Hd _].
  destruct (iterate_spec ce d points Hp (Z.to_nat (MaxIter (ml.config ce))) seeds)
    as (clusters & Hit & Hlen' & Hd' & Hperm); [|done|].
  { intros ->. simpl in Hl. lia. }
  exists clusters. repeat split; [done|congruence| |done].
  apply Hperm. left. lia.
Qed.

(** With [K ≥ 1], [MaxIter ≥ 1], a window size [w ≥ 0] and at least
    [w + K] points, [LearnBaseline] returns without error and stores for
    the service [K] clusters of 4-dimensional centroids that partition the
    [len(points) - w] feature vectors of the input. *)
Theorem LearnBaseline_learns (d : Detector) (serviceName : string) (points : list DataPoint) :
  let w := WindowSize (anomaly.config d) in
  let k := K (ml.config (clusteringEngine d)) in
  1 ≤ k → 1 ≤ MaxIter (ml.config (clusteringEngine d)) → 0 ≤ w →
  w + k ≤ Z.of_nat (length points) →
  fits_int ((Z.of_nat (length points) - w) * k) →
  ∃ d' features clusters,
    LearnBaseline d serviceName points = Some (d', None) ∧
    ExtractFeatures points w = Some features ∧
    Z.of_nat (length features) = Z.of_nat (length points) - w ∧
    baselines d' !! serviceName = Some clusters ∧
    length clusters = Z.to_nat k ∧
    assigned clusters ≡ₚ features ∧
    centroids_dim 4 clusters.
Proof.
  intros w k Hk HM Hw Hlen Hfit. unfold LearnBaseline. fold w.
  rewrite decide_False by lia.
  destruct (ExtractFeatures_is_Some points w Hw) as [features Hf]. rewrite Hf. simpl.
  pose proof (ExtractFeatures_spec _ _ _ Hf) as (_ & Hlf & Hdim).
  assert (Z.of_nat (length features) = Z.of_nat (length points) - w) as Hlf' by lia.
  destruct (KMeans_returns_partition (clusteringEngine d) 4 features)
    as (clusters & Hkm & Hlc & Hperm & Hcd); try done; fold k.
  - lia.
  - by rewrite Hlf'.
  - rewrite Hkm. simpl. eexists _, features, clusters.
    split; [done|]. split; [done|]. split; [done|]. simpl.
    rewrite lookup_insert_eq. done.
Qed.

Lemma LearnBaseline_learns_witness :
  ∃ d' features clusters,
    LearnBaseline defaultDetector "svc" history = Some (d', None) ∧
    ExtractFeatures history 10 = Some features ∧
    baselines d' !! "svc" = Some clusters ∧
    length clusters = 3%nat ∧
    assigned clusters ≡ₚ features.
Proof.
  destruct (LearnBaseline_learns defaultDetector "svc" history)
    as (d' & features & clusters & Hl & Hf & _ & Hb & Hlen & Hperm & _).
  - simpl; lia.
  - simpl; lia.
  - simpl; lia.
  - simpl; lia.
  - unfold fits_int; simpl; lia.
  - exists d', features, clusters.
    split; [exact Hl|]. split; [exact Hf|]. split; [exact Hb|].
    split; [exact Hlen|exact Hperm].
Defined.

(** *** The static path *)

Lemma detectStaticAnomalies_traffic_spike (d : Detector) (serviceName : string)
    (points : list DataPoint) (latest : DataPoint) :
  last points = Some latest →
  filter (λ a, Type_ a = TrafficSpike) (detectStaticAnomalies d serviceName points)
  = if isTrafficSpike d points
    then [{| Type_ := TrafficSpike;
             ServiceName := serviceName;
             Namespace := "";
             Severity := calculateTrafficSpikeSeverity d points;
             Description := go.Sprintf "Traffic spike detected: %.2f requests" [Value latest];
             Timestamp := timeseries.Timestamp latest;
             Metrics := {[ "current_traffic" := Value latest ]};
             Labels := ∅ |}]
    else [].
Proof.
  intros Hlast. unfold detectStaticAnomalies. rewrite Hlast.
  case_decide as Hlen.
  - unfold isTrafficSpike. by rewrite decide_True by lia.
  - destruct (isTrafficSpike d points), (isHighErrorRate d points); simpl;
      rewrite ?filter_cons, ?filter_nil; repeat case_decide; done.
Qed.

(** The traffic-spike rule. With [recent] the mean of the last 3 points and
    [prior] the mean of the points before them (0 when there are none), a
    detection call on at least 3 points emits exactly one traffic-spike
    anomaly when [recent > prior * TrafficSpikeThreshold], stamped like the
    latest point, with severity [recent / prior], or 1.0 when [prior] is 0;
    otherwise, and on fewer than 3 points, it emits none. *)
Theorem traffic_spike_rule (d : Detector) (now : Z) (serviceName : string)
    (points : list DataPoint) (latest : DataPoint) :
  reachable d →
  last points = Some latest →
  let recent := anomaly.calculateMean (drop (length points - 3) points) in
  let prior := anomaly.calculateMean (take (length points - 3) points) in
  let fires := (prior * TrafficSpikeThreshold (anomaly.config d) <? recent)%float in
  ∃ anomalies,
    DetectAnomalies d now serviceName points = Some (anomalies, None) ∧
    ((3 ≤ length points)%nat → fires = true →
     ∃ a, filter (λ a, Type_ a = TrafficSpike) anomalies = [a] ∧
          Severity a = (if (prior =? 0)%float then 1 else recent / prior)%float ∧
          Timestamp a = timeseries.Timestamp latest ∧
          Metrics a = {[ "current_traffic" := Value latest ]}) ∧
    ((length points < 3)%nat ∨ fires = false →
     filter (λ a, Type_ a = TrafficSpike) anomalies = []).
Proof.
  intros Hr Hlast recent prior fires.
  destruct (DetectAnomalies_is_Some d now serviceName points (reachable_ok d Hr))
    as [anomalies Hdet].
  exists anomalies. split; [done|].
  assert (filter (λ a, Type_ a = TrafficSpike) anomalies
          = filter (λ a, Type_ a = TrafficSpike) (detectStaticAnomalies d serviceName points))
    as ->.
  { unfold DetectAnomalies in Hdet.
    destruct (baselines d !! serviceName) as [clusters|]; [|by injection Hdet as <-].
    destruct (detectMLAnomalies _ _ _ _ _) as [mlAnomalies|] eqn:Hml; simpl in Hdet; [|done].
    injection Hdet as <-. simpl. rewrite filter_app.
    rewrite (filter_other_type _ mlAnomalies); [by rewrite app_nil_r|].
    eapply Forall_impl; [by eapply detectMLAnomalies_types|].
    simpl. intros a ->. done. }
  rewrite (detectStaticAnomalies_traffic_spike d serviceName points latest Hlast).
  unfold isTrafficSpike, calculateTrafficSpikeSeverity. fold recent prior fires.
  split.
  - intros Hlen Hfires. rewrite !decide_False by lia. rewrite Hfires. by eexists.
  - intros [Hlen|Hfires]; [by rewrite decide_True|].
    case_decide; [done|]. by rewrite Hfires.
Qed.

(** The case of the specification: a prior mean of 100, a recent mean of
    250 and a threshold of 2.0 give a spike of severity 2.5. *)
Lemma traffic_spike_rule_witness :
  let points := sample <$> [100; 100; 100; 100; 250; 250; 250]%float in
  ∃ anomalies a,
    DetectAnomalies defaultDetector 0 "svc" points = Some (anomalies, None) ∧
    filter (λ a, Type_ a = TrafficSpike) anomalies = [a] ∧
    Severity a = 2.5%float.
Proof.
  intros points.
  destruct (traffic_spike_rule defaultDetector 0 "svc" points (sample 250)
              (reachable_new _ _) eq_refl) as (anomalies & Hdet & Hfire & _).
  destruct Hfire as (a & Ha & Hsev & _); [simpl; lia|by vm_compute|].
  exists anomalies, a. split; [done|]. split; [done|]. rewrite Hsev. by vm_compute.
Defined.

(** *** The shape of a detection result *)

Lemma detectStaticAnomalies_shape (d : Detector) (serviceName : string)
    (points : list DataPoint) :
  Type_ <$> detectStaticAnomalies d serviceName points `sublist_of` [TrafficSpike; ErrorRateHigh] ∧
  Forall (λ a, ServiceName a = serviceName ∧ Namespace a = "" ∧ Labels a = ∅ ∧
               ∃ latest, last points = Some latest ∧ Timestamp a = timeseries.Timestamp latest)
         (detectStaticAnomalies d serviceName points).
Proof.
  unfold detectStaticAnomalies. case_decide; [split; [apply sublist_nil_l|constructor]|].
  destruct (last points) as [latest|]; [|split; [apply sublist_nil_l|constructor]].
  destruct (isTrafficSpike d points), (isHighErrorRate d points); simpl; split;
    repeat first [ apply sublist_skip | apply sublist_cons | apply sublist_nil_l ];
    repeat constructor; by exists latest.
Qed.

Lemma detectMLAnomalies_shape (d : Detector) (now : Z) (serviceName : string)
    (points : list DataPoint) (clusters : list Cluster) (mlAnomalies : list Anomaly) :
  detectMLAnomalies d now serviceName points clusters = Some mlAnomalies →
  Type_ <$> mlAnomalies `sublist_of` ["behavioral_anomaly"] ∧
  Forall (λ a, ServiceName a = serviceName ∧ Namespace a = "" ∧ Labels a = ∅ ∧
               Timestamp a = now) mlAnomalies ∧
  (mlAnomalies ≠ [] → WindowSize (anomaly.config d) < Z.of_nat (length points)).
Proof.
  unfold detectMLAnomalies. case_decide.
  { intros [= <-]. split; [apply sublist_nil_l|]. split; [constructor|done]. }
  destruct (ExtractFeatures _ _) as [features|] eqn:Hf; simpl; [|done].
  destruct (last features) as [latest|] eqn:Hlast;
    [|intros [= <-]; split; [apply sublist_nil_l|]; split; [constructor|done]].
  destruct (go.foldM _ _ _) as [minDistance|]; simpl; [|done].
  destruct (calculateDynamicThreshold _ _) as [threshold|]; simpl; [|done].
  assert (WindowSize (anomaly.config d) < Z.of_nat (length points)) as Hw.
  { apply ExtractFeatures_spec in Hf as (_ & Hlen & _).
    destruct features; [done|]. simpl in Hlen. lia. }
  destruct (_ <? _)%float; intros [= <-]; simpl.
  - split; [done|]. split; [|done]. by repeat constructor.
  - split; [apply sublist_nil_l|]. split; [constructor|done].
Qed.

(** A detection result lists the anomalies of the static path before the
    one of the ML path, at most one of each type, in the order traffic
    spike, high error rate, behavioral anomaly: at most three in all. *)
Theorem DetectAnomalies_order (d : Detector) (now : Z) (serviceName : string)
    (points : list DataPoint) (anomalies : list Anomaly) (err : go.error) :
  DetectAnomalies d now serviceName points = Some (anomalies, err) →
  Type_ <$> anomalies `sublist_of` [TrafficSpike; ErrorRateHigh; "behavioral_anomaly"] ∧
  (length anomalies ≤ 3)%nat.
Proof.
  intros Hdet.
  assert (Type_ <$> anomalies `sublist_of` [TrafficSpike; ErrorRateHigh; "behavioral_anomaly"])
    as Hsub.
  { unfold DetectAnomalies in Hdet.
    destruct (detectStaticAnomalies_shape d serviceName points) as [Hstatic _].
    destruct (baselines d !! serviceName) as [clusters|].
    - destruct (detectMLAnomalies _ _ _ _ _) as [mlAnomalies|] eqn:Hml; simpl in Hdet; [|done].
      injection Hdet as <- <-. simpl. rewrite fmap_app.
      apply detectMLAnomalies_shape in Hml as [Hml _].
      change [TrafficSpike; ErrorRateHigh; "behavioral_anomaly"]
        with ([TrafficSpike; ErrorRateHigh] ++ ["behavioral_anomaly"]).
      by apply sublist_app.
    - injection Hdet as <- <-. simpl.
      change [TrafficSpike; ErrorRateHigh; "behavioral_anomaly"]
        with ([TrafficSpike; ErrorRateHigh] ++ ["behavioral_anomaly"]).
      by apply sublist_inserts_r. }
  split; [done|]. apply sublist_length in Hsub. by rewrite length_fmap in Hsub.
Qed.

Lemma DetectAnomalies_order_witness :
  let points := sample <$> [100; 100; 100; 100; 250; 250; 250]%float in
  ∃ anomalies,
    DetectAnomalies defaultDetector 0 "svc" points = Some (anomalies, None) ∧
    Type_ <$> anomalies = [TrafficSpike; ErrorRateHigh] ∧
    Type_ <$> anomalies `sublist_of` [TrafficSpike; ErrorRateHigh; "behavioral_anomaly"].
Proof.
  intros points.
  destruct (DetectAnomalies defaultDetector 0 "svc" points) as [[anomalies err]|] eqn:Hdet;
    [|by vm_compute in Hdet].
  pose proof (proj1 (DetectAnomalies_order _ _ _ _ _ _ Hdet)) as Hsub.
  exists anomalies. vm_compute in Hdet. injection Hdet as <- <-. by repeat split.
Defined.

(** Every anomaly of a detection result names the service asked about and
    carries no namespace and no labels; the anomalies of the static path
    are stamped with the time of the latest point, the behavioral anomaly
    with the time of the call. *)
Theorem DetectAnomalies_metadata (d : Detector) (now : Z) (serviceName : string)
    (points : list DataPoint) (anomalies : list Anomaly) (err : go.error) :
  DetectAnomalies d now serviceName points = Some (anomalies, err) →
  Forall (λ a, ServiceName a = serviceName ∧ Namespace a = "" ∧ Labels a = ∅ ∧
               if decide (Type_ a = "behavioral_anomaly") then Timestamp a = now
               else ∃ latest, last points = Some latest ∧
                              Timestamp a = timeseries.Timestamp latest)
         anomalies.
Proof.
  intros Hdet. unfold DetectAnomalies in Hdet.
  assert (Forall (λ a, ServiceName a = serviceName ∧ Namespace a = "" ∧ Labels a = ∅ ∧
                       if decide (Type_ a = "behavioral_anomaly") then Timestamp a = now
                       else ∃ latest, last points = Some latest ∧
                                      Timestamp a = timeseries.Timestamp latest)
                 (detectStaticAnomalies d serviceName points)) as Hstatic.
  { destruct (detectStaticAnomalies_shape d serviceName points) as [Hty Hmeta].
    apply Forall_forall. intros a Ha.
    pose proof (proj1 (Forall_forall _ _) Hmeta a Ha) as (? & ? & ? & ?).
    repeat split; try done. rewrite decide_False; [done|].
    intros Hb. assert (Type_ a ∈ Type_ <$> detectStaticAnomalies d serviceName points) as Hin
      by (by apply list_elem_of_fmap_2).
    rewrite Hb in Hin. apply (elem_of_sublist _ _ _ Hin) in Hty as Hin'. clear Hin. rename Hin' into Hin.
    repeat (apply elem_of_cons in Hin as [Hin|Hin]; [done|]). by apply not_elem_of_nil in Hin. }
  destruct (baselines d !! serviceName) as [clusters|]; [|by injection Hdet as <- <-].
  destruct (detectMLAnomalies _ _ _ _ _) as [mlAnomalies|] eqn:Hml; simpl in Hdet; [|done].
  injection Hdet as <- <-. simpl. apply Forall_app. split; [done|].
  pose proof (detectMLAnomalies_types _ _ _ _ _ _ Hml) as Hty.
  apply detectMLAnomalies_shape in Hml as (_ & Hmeta & _).
  apply Forall_forall. intros a Ha.
  pose proof (proj1 (Forall_forall _ _) Hmeta a Ha) as (? & ? & ? & ?).
  pose proof (proj1 (Forall_forall _ _) Hty a Ha) as Hb.
  repeat split; try done. by rewrite decide_True.
Qed.

Lemma DetectAnomalies_metadata_witness :
  let points := sample <$> [100; 100; 100; 100; 250; 250; 250]%float in
  ∃ anomalies,
    DetectAnomalies defaultDetector 0 "svc" points = Some (anomalies, None) ∧
    Forall (λ a, ServiceName a = "svc" ∧ Namespace a = "") anomalies.
Proof.
  intros points.
  destruct (DetectAnomalies defaultDetector 0 "svc" points) as [[anomalies err]|] eqn:Hdet;
    [|by vm_compute in Hdet].
  pose proof (DetectAnomalies_metadata _ _ _ _ _ _ Hdet) as Hmeta.
  exists anomalies. split; [vm_compute in Hdet; by injection Hdet as <- <-|].
  eapply Forall_impl; [exact Hmeta|]. simpl. by intros a (? & ? & _).
Defined.

Lemma detectStaticAnomalies_not_behavioral (d : Detector) (serviceName : string)
    (points : list DataPoint) :
  behavioral (detectStaticAnomalies d serviceName points) = [].
Proof.
  apply filter_other_type.
  destruct (detectStaticAnomalies_shape d serviceName points) as [Hty _].
  apply Forall_forall. intros a Ha Hb.
  assert (Type_ a ∈ Type_ <$> detectStaticAnomalies d serviceName points) as Hin
    by (by apply list_elem_of_fmap_2).
  rewrite Hb in Hin. apply (elem_of_sublist _ _ _ Hin) in Hty.
  repeat (apply elem_of_cons in Hty as [Hty|Hty]; [done|]). by apply not_elem_of_nil in Hty.
Qed.

(** The ML path needs a stored baseline and more points than
    [WindowSize]: without either, no behavioral anomaly is emitted. *)
Theorem behavioral_needs_baseline (d : Detector) (now : Z) (serviceName : string)
    (points : list DataPoint) (anomalies : list Anomaly) (err : go.error) :
  DetectAnomalies d now serviceName points = Some (anomalies, err) →
  baselines d !! serviceName = None ∨
    Z.of_nat (length points) ≤ WindowSize (anomaly.config d) →
  behavioral anomalies = [].
Proof.
  intros Hdet Hcase. unfold DetectAnomalies in Hdet. unfold behavioral.
  pose proof (detectStaticAnomalies_not_behavioral d serviceName points) as Hstatic.
  unfold behavioral in Hstatic.
  destruct (baselines d !! serviceName) as [clusters|]; [|by injection Hdet as <- <-].
  destruct (detectMLAnomalies _ _ _ _ _) as [mlAnomalies|] eqn:Hml; simpl in Hdet; [|done].
  injection Hdet as <- <-. simpl. rewrite filter_app, Hstatic. simpl.
  destruct Hcase as [Hnone|Hlen]; [done|].
  apply detectMLAnomalies_shape in Hml as (_ & _ & Hw).
  destruct mlAnomalies; [done|]. specialize (Hw ltac:(done)). lia.
Qed.

Lemma behavioral_needs_baseline_witness :
  ∃ anomalies,
    DetectAnomalies defaultDetector 0 "svc" history = Some (anomalies, None) ∧
    baselines defaultDetector !! "svc" = None ∧
    behavioral anomalies = [].
Proof.
  destruct (DetectAnomalies defaultDetector 0 "svc" history) as [[anomalies err]|] eqn:Hdet;
    [|by vm_compute in Hdet].
  pose proof (behavioral_needs_baseline _ _ _ _ _ _ Hdet (or_introl eq_refl)) as Hb.
  exists anomalies. split; [vm_compute in Hdet; by injection Hdet as <- <-|]. by split.
Defined.

(** *** The ML path *)

Lemma minDistance_loop_value (features : list float) (clusters : list Cluster) : ∀ m,
  Forall (λ c, (length features ≤ length (Centroid c))%nat) clusters →
  go.foldM (λ minDistance cluster,
              distance ← anomaly.euclideanDistance features (Centroid cluster);
              Some (if (distance <? minDistance)%float then distance else minDistance))
           m clusters
  = Some (fold_left (λ m c, let dist := euclidean features (Centroid c) in
                            if (dist <? m)%float then dist else m) clusters m).
Proof.
  induction clusters as [|c clusters IH]; intros m Hdim; simpl; [done|].
  inversion_clear Hdim as [|? ? Hc Hcs].
  rewrite euclideanDistance_euclidean by done. simpl. by apply IH.
Qed.

Lemma min_scan_least (features : list float) (clusters : list Cluster) : ∀ m,
  let r := fold_left (λ m c, let dist := euclidean features (Centroid c) in
                             if (dist <? m)%float then dist else m) clusters m in
  (r = m ∨ (r <? m)%float = true) ∧
  Forall (λ c, (euclidean features (Centroid c) <? r)%float = false) clusters.
Proof.
  induction clusters as [|c clusters IH]; intros m; [by split; [left|]|].
  cbn [fold_left]. cbv zeta.
  set (dist := euclidean features (Centroid c)).
  destruct (dist <? m)%float eqn:Hlt.
  - specialize (IH dist). cbv zeta in IH. fold dist in IH.
    set (r := fold_left _ clusters dist) in *.
    destruct IH as [[Hr|Hr] Hall].
    + split; [right; by rewrite Hr|]. constructor; [|done]. rewrite Hr. apply ltb_irrefl.
    + split; [right; by eapply ltb_trans|]. constructor; [|done]. by apply ltb_asym.
  - specialize (IH m). cbv zeta in IH.
    set (r := fold_left _ clusters m) in *.
    destruct IH as [[Hr|Hr] Hall].
    + split; [by left|]. constructor; [|done]. by rewrite Hr.
    + split; [by right|]. constructor; [|done].
      destruct (dist <? r)%float eqn:Hd; [|done].
      by rewrite (ltb_trans _ _ _ Hd Hr) in Hlt.
Qed.

(** The behavioral rule. For a service with a stored baseline and an input
    of more points than [WindowSize], the ML path looks at the latest
    feature vector only: with [distance] its least distance to a centroid
    of the baseline (no centroid is nearer) and [threshold] the dynamic
    threshold of the baseline, a detection call emits one behavioral
    anomaly of severity [distance / threshold] when
    [distance > threshold], and none otherwise. *)
Theorem behavioral_rule (d : Detector) (now : Z) (serviceName : string)
    (points : list DataPoint) (clusters : list Cluster) :
  reachable d →
  baselines d !! serviceName = Some clusters →
  WindowSize (anomaly.config d) < Z.of_nat (length points) →
  ∃ features latest anomalies,
    ExtractFeatures points (WindowSize (anomaly.config d)) = Some features ∧
    last features = Some latest ∧
    DetectAnomalies d now serviceName points = Some (anomalies, None) ∧
    let distance := nearestDistance (Features latest) clusters in
    let threshold := dynamicThreshold (SensitivityLevel (anomaly.config d)) clusters in
    Forall (λ c, (euclidean (Features latest) (Centroid c) <? distance)%float = false) clusters ∧
    behavioral anomalies
    = if (threshold <? distance)%float
      then [{| Type_ := "behavioral_anomaly";
               ServiceName := serviceName;
               Namespace := "";
               Severity := (distance / threshold)%float;
               Description := go.Sprintf "Behavioral anomaly detected (distance: %.2f)" [distance];
               Timestamp := now;
               Metrics := {[ "anomaly_distance" := distance ]};
               Labels := ∅ |}]
      else [].
Proof.
  intros Hr Hb Hlen.
  pose proof (reachable_ok d Hr _ _ Hb) as Hok. pose proof Hok as (Hw & Hc & Hp).
  destruct (ExtractFeatures_is_Some points _ Hw) as [features Hf].
  pose proof (ExtractFeatures_spec _ _ _ Hf) as (_ & Hlf & Hdim).
  destruct (last_is_Some features) as [latest Hlast].
  { intros ->. simpl in Hlf. lia. }
  assert (length (Features latest) = 4%nat) as Hl4.
  { apply last_Some_elem_of in Hlast. by apply (proj1 (Forall_forall _ _) Hdim). }
  assert (Forall (λ c, (length (Features latest) ≤ length (Centroid c))%nat) clusters) as Hle.
  { eapply Forall_impl; [exact Hc|]. simpl. intros c Hc4. lia. }
  set (distance := nearestDistance (Features latest) clusters).
  set (threshold := dynamicThreshold (SensitivityLevel (anomaly.config d)) clusters).
  exists features, latest,
    (detectStaticAnomalies d serviceName points ++
     if (threshold <? distance)%float
     then [{| Type_ := "behavioral_anomaly";
              ServiceName := serviceName;
              Namespace := "";
              Severity := (distance / threshold)%float;
              Description := go.Sprintf "Behavioral anomaly detected (distance: %.2f)" [distance];
              Timestamp := now;
              Metrics := {[ "anomaly_distance" := distance ]};
              Labels := ∅ |}]
     else []).
  split; [done|]. split; [done|]. split; [|split].
  - unfold DetectAnomalies. rewrite Hb. unfold detectMLAnomalies.
    rewrite decide_False by lia. rewrite Hf. simpl. rewrite Hlast.
    rewrite (minDistance_loop_value _ _ _ Hle). simpl.
    rewrite (calculateDynamicThreshold_dynamicThreshold d clusters (baseline_ok_wf _ _ Hok)).
    simpl. fold (nearestDistance (Features latest) clusters). fold distance threshold.
    by destruct (threshold <? distance)%float.
  - apply (min_scan_least (Features latest) clusters infinity).
  - unfold behavioral. rewrite filter_app.
    pose proof (detectStaticAnomalies_not_behavioral d serviceName points) as Hs.
    unfold behavioral in Hs. rewrite Hs. simpl. subst distance threshold.
    destruct (_ <? _)%float; [|done]. rewrite filter_cons. by rewrite decide_True.
Qed.

Lemma behavioral_rule_witness :
  ∃ d features latest anomalies,
    reachable d ∧ is_Some (baselines d !! "svc") ∧
    ExtractFeatures history 10 = Some features ∧
    last features = Some latest ∧
    DetectAnomalies d 0 "svc" history = Some (anomalies, None).
Proof.
  destruct (LearnBaseline defaultDetector "svc" history) as [[d err]|] eqn:Hlearn;
    [|by vm_compute in Hlearn].
  assert (reachable d) as Hr.
  { eapply reachable_learn; [apply reachable_new|exact Hlearn]. }
  assert (anomaly.config d = anomaly.config defaultDetector) as Hcfg.
  { vm_compute in Hlearn. by injection Hlearn as <- _. }
  destruct (baselines d !! "svc") as [clusters|] eqn:Hb;
    [|vm_compute in Hlearn; injection Hlearn as <- _; by vm_compute in Hb].
  destruct (behavioral_rule d 0 "svc" history clusters Hr Hb)
    as (features & latest & anomalies & Hf & Hlast & Hdet & _).
  { rewrite Hcfg. by vm_compute. }
  rewrite Hcfg in Hf. exists d, features, latest, anomalies. by repeat split.
Defined.

(** Too few feature vectors, in general: when an input of more than
    [WindowSize ≥ 0] points gives fewer feature vectors than [K],
    [LearnBaseline] returns no error and leaves the service with an empty
    baseline, and every later detection on that input ends with a
    behavioral anomaly whose distance and severity are [+Inf]. *)
Theorem few_features_then_infinite_anomaly (d : Detector) (serviceName : string)
    (points : list DataPoint) :
  let w := WindowSize (anomaly.config d) in
  0 ≤ w → w < Z.of_nat (length points) →
  Z.of_nat (length points) - w < K (ml.config (clusteringEngine d)) →
  ∃ d',
    LearnBaseline d serviceName points = Some (d', None) ∧
    baselines d' !! serviceName = Some [] ∧
    ∀ now, ∃ static a,
      DetectAnomalies d' now serviceName points = Some (static ++ [a], None) ∧
      Type_ a = "behavioral_anomaly" ∧ Severity a = infinity ∧
      Metrics a = {[ "anomaly_distance" := infinity ]}.
Proof.
  intros w Hw Hlen Hk.
  destruct (ExtractFeatures_is_Some points w Hw) as [features Hf].
  pose proof (ExtractFeatures_spec _ _ _ Hf) as (_ & Hlf & _).
  eexists. split.
  { apply (LearnBaseline_few_features d serviceName points features); [fold w; lia|done|lia]. }
  simpl. split; [by rewrite lookup_insert_eq|]. intros now.
  eexists _, _. split.
  { apply DetectAnomalies_empty_baseline; simpl; [by rewrite lookup_insert_eq|]. fold w. lia. }
  done.
Qed.

Lemma few_features_then_infinite_anomaly_witness :
  ∃ d' static a,
    LearnBaseline defaultDetector "svc" recent = Some (d', None) ∧
    DetectAnomalies d' 0 "svc" recent = Some (static ++ [a], None) ∧
    Severity a = infinity.
Proof.
  destruct (few_features_then_infinite_anomaly defaultDetector "svc" recent)
    as (d' & Hl & _ & Hdet).
  - simpl; lia.
  - simpl; lia.
  - simpl; lia.
  - destruct (Hdet 0) as (static & a & Ha & _ & Hsev & _).
    by exists d', static, a.
Defined.

End detector_more.

(** ** The helpers of the formatter *)

Section formatter.
Import output.

Lemma length_append (s t : string) :
  String.length (s +:+ t) = (String.length s + String.length t)%nat.
Proof.
  induction s as [|a s IH]; [done|].
  rewrite append_cons. cbn [String.length]. by rewrite IH.
Qed.

Lemma length_substring_0 (s : string) : ∀ n,
  (n ≤ String.length s)%nat → String.length (String.substring 0 n s) = n.
Proof.
  induction s as [|a s IH]; intros [|n] Hn; simpl in *; try done; [lia|].
  rewrite IH by lia. done.
Qed.

(** For a limit of at least 3 bytes, [truncate] returns at most [maxLen]
    bytes: the string itself when it fits, and otherwise its first
    [maxLen - 3] bytes followed by three dots, [maxLen] bytes in all. *)
Theorem truncate_fits (s : string) (maxLen : Z) :
  3 ≤ maxLen → fits_int maxLen →
  ∃ r,
    truncate s maxLen = Some r ∧
    Z.of_nat (String.length r) ≤ maxLen ∧
    (Z.of_nat (String.length s) ≤ maxLen → r = s) ∧
    (maxLen < Z.of_nat (String.length s) →
     r = String.substring 0 (Z.to_nat (maxLen - 3)) s +:+ "..." ∧
     Z.of_nat (String.length r) = maxLen).
Proof.
  intros H3 Hfit. unfold truncate.
  destruct (Z.leb_spec (Z.of_nat (String.length s)) maxLen) as [Hle|Hgt].
  - exists s. split; [done|]. split; [done|]. split; [done|]. intros Hgt. lia.
  - rewrite wrap64_fits by (unfold fits_int in *; lia).
    rewrite decide_True by lia. eexists. split; [done|].
    assert (String.length (String.substring 0 (Z.to_nat (maxLen - 3)) s +:+ "...")
            = Z.to_nat maxLen) as Hlen.
    { rewrite length_append, length_substring_0 by lia. simpl. lia. }
    rewrite Hlen. repeat split; lia.
Qed.

Lemma truncate_fits_witness :
  3 ≤ 15 ∧ fits_int 15 ∧
  truncate "recommendation-service" 15 = Some "recommendati..." ∧
  truncate "frontend" 15 = Some "frontend".
Proof.
  split; [lia|]. split; [unfold fits_int; lia|].
  destruct (truncate_fits "recommendation-service" 15) as (r & Hr & _ & _ & Hcut);
    [lia|unfold fits_int; lia|].
  destruct (truncate_fits "frontend" 15) as (r' & Hr' & _ & Hsame & _);
    [lia|unfold fits_int; lia|].
  rewrite Hr, Hr'. split.
  - destruct Hcut as [-> _]; [simpl; lia|]. reflexivity.
  - rewrite Hsame; [done|simpl; lia].
Defined.

(** A limit below 3 leaves no room for the dots: on a string longer than
    the limit the slice bound [maxLen - 3] is negative and [truncate]
    panics. *)
Theorem truncate_small_limit_panics (s : string) (maxLen : Z) :
  - 2 ^ 63 + 3 ≤ maxLen → maxLen < 3 →
  maxLen < Z.of_nat (String.length s) →
  truncate s maxLen = None.
Proof.
  intros Hmin H3 Hgt. unfold truncate.
  destruct (Z.leb_spec (Z.of_nat (String.length s)) maxLen); [lia|].
  rewrite wrap64_fits by (unfold fits_int; lia). by rewrite decide_False by lia.
Qed.

Lemma truncate_small_limit_panics_witness :
  - 2 ^ 63 + 3 ≤ 2 ∧ 2 < 3 ∧ truncate "abc" 2 = None.
Proof.
  split; [lia|]. split; [lia|].
  apply truncate_small_limit_panics; [lia|lia|simpl; lia].
Defined.

(** The severity label never goes down when the severity goes up. *)
Theorem getSeverityText_monotone (s1 s2 : float) :
  (s1 <=? s2)%float = true →
  (severityRank (getSeverityText s1) ≤ severityRank (getSeverityText s2))%nat.
Proof.
  intros Hle. unfold getSeverityText.
  destruct (3 <=? s1)%float eqn:H3.
  { by rewrite (leb_trans _ _ _ H3 Hle). }
  destruct (2 <=? s1)%float eqn:H2.
  { pose proof (leb_trans _ _ _ H2 Hle) as H2'. rewrite H2'.
    destruct (3 <=? s2)%float; vm_compute; lia. }
  destruct (1.5 <=? s1)%float eqn:H1.
  { pose proof (leb_trans _ _ _ H1 Hle) as H1'. rewrite H1'.
    destruct (3 <=? s2)%float, (2 <=? s2)%float; vm_compute; lia. }
  vm_compute. lia.
Qed.

Lemma getSeverityText_monotone_witness :
  (1.7 <=? 2.5)%float = true ∧
  getSeverityText 1.7 = "MEDIUM" ∧ getSeverityText 2.5 = "HIGH" ∧
  (severityRank (getSeverityText 1.7) ≤ severityRank (getSeverityText 2.5))%nat.
Proof.
  assert ((1.7 <=? 2.5)%float = true) as Hle by reflexivity.
  split; [exact Hle|]. split; [reflexivity|]. split; [reflexivity|].
  exact (getSeverityText_monotone 1.7 2.5 Hle).
Defined.

(** A severity that is NaN reads LOW; the infinite severity of an anomaly
    raised against an empty baseline reads CRITICAL. *)
Example getSeverityText_nan_infinity :
  getSeverityText nan = "LOW" ∧ getSeverityText infinity = "CRITICAL".
Proof. by vm_compute. Qed.

End formatter.
